(** * MSSQL MCP server (Node): connection lifecycle and tool dispatch

    A shallow embedding of [src/MssqlMcp/Node/src/index.ts]:
    [createSqlConfig], [ensureSqlConnection], [wrapToolRun] and the two
    request handlers, followed by the properties of the specification
    that concern them.

    The program talks to the outside world (the identity provider, the
    [mssql] driver, the tool classes, the console, the clock).  It is
    therefore written as a term of a small free monad [Prog] whose
    events are exactly those interactions; a [Runtime] gives the events
    a meaning over an arbitrary world, and the interpreter [exec] keeps a
    log of the external calls that were made. *)

From Stdlib Require Import ZArith String Ascii List Bool Lia.
From stdpp Require Import base option gmap strings.

Set Warnings "-register-all".

Local Open Scope string_scope.
Local Open Scope Z_scope.

(** ** JavaScript substrate

    Strings are byte strings: [toLowerCase] acts on the ASCII letters
    only and [parseInt10] skips the ASCII white space only, which is
    what matters for the keywords the program compares with.  A number
    that the program uses is an integer or [NaN], and is kept exact: the
    rounding of an integer beyond 2^53 is not followed. *)

Module JS.

(** [s.toLowerCase()], character by character. *)
Definition lower_ascii (c : ascii) : ascii :=
  let n := nat_of_ascii c in
  if ((65 <=? n) && (n <=? 90))%nat then ascii_of_nat (n + 32) else c.

Fixpoint toLowerCase (s : string) : string :=
  match s with
  | EmptyString => EmptyString
  | String c r => String (lower_ascii c) (toLowerCase r)
  end.

(** [s.includes(sub)]: [sub] occurs somewhere in [s]. *)
Fixpoint includes (s sub : string) : bool :=
  String.prefix sub s ||
  match s with
  | EmptyString => false
  | String _ r => includes r sub
  end.

(** Truthiness of a value that is a string or [undefined]/[null]. *)
Definition truthy (v : option string) : bool :=
  match v with
  | Some s => negb (String.eqb s "")
  | None => false
  end.

(** [a || b] where [a] is a string or [undefined] and [b] a string. *)
Definition or_else (a : option string) (b : string) : string :=
  match a with
  | Some s => if String.eqb s "" then b else s
  | None => b
  end.

(** [a || null]. *)
Definition or_null (a : option string) : option string :=
  if truthy a then a else None.

(** [String(v)] for a string or [undefined], as a template literal
    renders it. *)
Definition show (v : option string) : string :=
  match v with
  | Some s => s
  | None => "undefined"
  end.

(** A number: an integer, or [None] for [NaN]. *)
Definition Number := option Z.

Definition is_white (c : ascii) : bool :=
  let n := nat_of_ascii c in
  ((n =? 32) || ((9 <=? n) && (n <=? 13)))%nat.

Fixpoint skip_white (s : string) : string :=
  match s with
  | String c r => if is_white c then skip_white r else s
  | EmptyString => s
  end.

Definition digit_value (c : ascii) : option Z :=
  let n := nat_of_ascii c in
  if ((48 <=? n) && (n <=? 57))%nat then Some (Z.of_nat (n - 48)) else None.

(** The longest prefix of decimal digits, [acc] being the value read so
    far ([None]: no digit yet). *)
Fixpoint read_digits (s : string) (acc : Number) : Number :=
  match s with
  | String c r =>
      match digit_value c with
      | Some d => read_digits r (Some (10 * default 0 acc + d))
      | None => acc
      end
  | EmptyString => acc
  end.

(** [parseInt(s, 10)]: leading white space, an optional sign, then
    digits; [NaN] when no digit follows. *)
Definition parseInt10 (s : string) : Number :=
  match skip_white s with
  | String "-"%char r => Z.opp <$> read_digits r None
  | String "+"%char r => read_digits r None
  | t => read_digits t None
  end.

(** A [Date] object: its time value in milliseconds, or [None] for an
    invalid date.  [new Date(t)] clips [t] to the range of time values. *)
Definition Date := option Z.

Definition maxTime : Z := 8640000000000000.

Definition new_Date (t : Z) : Date :=
  if Z.abs t <=? maxTime then Some t else None.

(** [a > b] on two dates: both are converted to numbers, and a
    comparison with [NaN] is false. *)
Definition Date_gt (a b : Date) : bool :=
  match a, b with
  | Some x, Some y => y <? x
  | _, _ => false
  end.

(** What the program can catch, by the way it converts to a string: an
    [Error] object with its [name] and [message]; a symbol, which
    [String(v)] renders and a template literal refuses; a value whose
    conversion throws, such as an object without [toString] (for
    [Object.create(null)] what is raised is a [TypeError]); any other
    value, given by the string it converts to. *)
Inductive Thrown :=
| ErrorObject (name message : string)
| OtherValue (rendering : string)
| SymbolValue (description : string)
| Unconvertible (raises : Thrown).

(** How an operation that may throw completes, and how an awaited call
    settles: with a value, or with what was thrown. *)
Inductive Settled (A : Type) : Type :=
| resolved (a : A)
| rejected (e : Thrown).

Arguments resolved {A} a.
Arguments rejected {A} e.

(** [new Error(msg)] and [new TypeError(msg)]. *)
Definition new_Error (msg : string) : Thrown := ErrorObject "Error" msg.

Definition new_TypeError (msg : string) : Thrown := ErrorObject "TypeError" msg.

(** [String(v)]; [Error.prototype.toString] joins name and message. *)
Definition String_of (e : Thrown) : Settled string :=
  match e with
  | ErrorObject n m =>
      resolved (if String.eqb n "" then m
                else if String.eqb m "" then n else n +:+ ": " +:+ m)
  | OtherValue s => resolved s
  | SymbolValue d => resolved ("Symbol(" +:+ d +:+ ")")
  | Unconvertible e' => rejected e'
  end.

(** [`${v}`]: the conversion a template literal applies, which throws a
    [TypeError] for a symbol. *)
Definition template_of (e : Thrown) : Settled string :=
  match e with
  | SymbolValue _ => rejected (new_TypeError "Cannot convert a Symbol value to a string")
  | _ => String_of e
  end.

(** [error instanceof Error ? error.message : String(error)]. *)
Definition message_of (e : Thrown) : Settled string :=
  match e with
  | ErrorObject _ m => resolved m
  | _ => String_of e
  end.

(** The values a tool call carries: JSON. *)
Inductive Value :=
| VUndefined
| VNull
| VBool (b : bool)
| VNum (n : Z)
| VStr (s : string)
| VArr (items : list Value)
| VObj (fields : list (string * Value)).

(** [typeof v === "string"]. *)
Definition is_string (v : Value) : bool :=
  match v with
  | VStr _ => true
  | _ => false
  end.

(** [o.key] on an object given by its fields; [undefined] when absent. *)
Fixpoint get_field (fields : list (string * Value)) (key : string) : Value :=
  match fields with
  | nil => VUndefined
  | (k, v) :: rest => if String.eqb k key then v else get_field rest key
  end.

End JS.

Import JS.

(** ** Data model *)

(** [process.env]: a map from variable names to strings; a variable
    that is not set reads as [undefined]. *)
Abbreviation Env := (gmap string string).

(** The [options] object of an [sql.config]. *)
Record SqlOptions := {
  encrypt : bool;
  trustServerCertificate : bool;
  enableArithAbort : option bool
}.

(** The [authentication] object of an [sql.config]: its [type] is the
    constructor, its [options] the arguments. *)
Inductive Authentication :=
| ntlm (domain userName ntlmPassword : string)
| azure_active_directory_access_token (accessToken : option string).

(** [sql.config], with the fields the program sets. *)
Record SqlConfig := {
  server : option string;
  database : option string;
  options : SqlOptions;
  connectionTimeout : Number;
  authentication : option Authentication;
  user : option string;
  password : option string
}.

(** [AccessToken] of [@azure/identity]. *)
Module Azure.
Record AccessToken := {
  token : string;
  expiresOnTimestamp : Z
}.
End Azure.

(** What [createSqlConfig] resolves to. *)
Record ConfigResult := {
  config : SqlConfig;
  token : option string;
  expiresOn : option Date
}.

(** A [sql.ConnectionPool] object, by identity.  Its [connected]
    property belongs to the driver and is read through an event. *)
Definition Pool := nat.

(** The module's globals, "for connection and token reuse". *)
Record Globals := {
  globalSqlPool : option Pool;
  globalAccessToken : option string;
  globalTokenExpiresOn : option Date
}.

Definition initialGlobals : Globals :=
  {| globalSqlPool := None; globalAccessToken := None; globalTokenExpiresOn := None |}.

(** The eight tool objects created at start-up. *)
Inductive Tool :=
| insertDataTool
| readDataTool
| updateDataTool
| createTableTool
| createIndexTool
| listTableTool
| dropTableTool
| describeTableTool.

(** [request.params.arguments]: an object, or [undefined]. *)
Definition Args := option (list (string * Value)).

(** One item of a response's [content]. *)
Record Content := {
  type : string;
  text : option string
}.

(** The response of the call handler: [isError] is [None] when the
    object has no such property. *)
Record CallToolResult := {
  content : list Content;
  isError : option bool
}.

Definition textContent (s : string) : Content :=
  {| type := "text"; text := Some s |}.

(** ** Programs and their events *)

Inductive Level := log | error.

(** The interactions of the program with what surrounds it.  The first
    four read and assign the module's globals; [PoolConnected] and
    [DateNow] read the driver and the clock; the calls from
    [CredentialGetToken] on are awaited, and [Resume] is the point where
    a suspended caller goes on: in a program, the suspension of an
    [await] on one of the program's own [async] functions. *)
Inductive Event : Type -> Type :=
| GetGlobals : Event Globals
| SetGlobalSqlPool (p : option Pool) : Event unit
| SetGlobalAccessToken (t : option string) : Event unit
| SetGlobalTokenExpiresOn (d : option Date) : Event unit
| PoolConnected (p : Pool) : Event bool
| DateNow : Event Z
| Console (l : Level) (args : list string) : Event unit
| JsonStringify (v : Value) : Event (Settled (option string))
| CredentialGetToken (scope : string) : Event (Settled (option Azure.AccessToken))
| PoolClose (p : Pool) : Event (Settled unit)
| SqlConnect (cfg : SqlConfig) : Event (Settled Pool)
| OriginalRun (t : Tool) (args : Args) : Event (Settled Value)
| Resume : Event unit.

(** A program: it returns, throws, or performs an event and goes on
    with the answer. *)
Inductive Prog (A : Type) : Type :=
| Ret (a : A)
| Throw (e : Thrown)
| Vis {X : Type} (ev : Event X) (k : X -> Prog A).

Arguments Ret {A} a.
Arguments Throw {A} e.
Arguments Vis {A X} ev k.

Fixpoint bind {A B : Type} (p : Prog A) (f : A -> Prog B) : Prog B :=
  match p with
  | Ret a => f a
  | Throw e => Throw e
  | Vis ev k => Vis ev (fun x => bind (k x) f)
  end.

(** [try { p } catch (error) { h error }]. *)
Fixpoint try_catch {A : Type} (p : Prog A) (h : Thrown -> Prog A) : Prog A :=
  match p with
  | Ret a => Ret a
  | Throw e => h e
  | Vis ev k => Vis ev (fun x => try_catch (k x) h)
  end.

Declare Scope prog_scope.
Delimit Scope prog_scope with prog.
Notation "x <- p ;; q" := (bind p (fun x => q))
  (at level 100, p at next level, right associativity) : prog_scope.
Notation "p ;; q" := (bind p (fun _ => q))
  (at level 100, right associativity) : prog_scope.
Local Open Scope prog_scope.

(** An event, for its answer. *)
Definition trigger {X : Type} (ev : Event X) : Prog X := Vis ev Ret.

(** A call that may throw: its value, or the exception raised here. *)
Definition call {A : Type} (ev : Event (Settled A)) : Prog A :=
  Vis ev (fun r => match r with resolved a => Ret a | rejected e => Throw e end).

(** An operation of the language that may throw, such as a conversion. *)
Definition complete {A : Type} (r : Settled A) : Prog A :=
  match r with
  | resolved a => Ret a
  | rejected e => Throw e
  end.

(** [await p()] for an [async] function [p] of the program itself: the
    caller is resumed with its value, or with what it threw. *)
Definition await {A : Type} (p : Prog A) : Prog A :=
  try_catch (x <- p ;; trigger Resume ;; Ret x)
            (fun e => trigger Resume ;; Throw e).

(** ** The outside world *)

(** The calls that leave the process, as the interpreter logs them:
    what was asked, and how it settled. *)
Inductive Call :=
| getToken_call (scope : string) (r : Settled (option Azure.AccessToken))
| close_call (p : Pool) (r : Settled unit)
| connect_call (cfg : SqlConfig) (r : Settled Pool)
| run_call (t : Tool) (args : Args) (r : Settled Value)
| console_call (l : Level) (args : list string).

(** What the program runs against, over a world [W] of one's choice. *)
Record Runtime (W : Type) := {
  date_now : W -> Z;
  pool_connected : W -> Pool -> bool;
  json_stringify : Value -> Settled (option string);
  credential_getToken : string -> W -> Settled (option Azure.AccessToken) * W;
  pool_close : Pool -> W -> Settled unit * W;
  sql_connect : SqlConfig -> W -> Settled Pool * W;
  original_run : Tool -> Args -> W -> Settled Value * W
}.

Arguments date_now {W} _ _.
Arguments pool_connected {W} _ _ _.
Arguments json_stringify {W} _ _.
Arguments credential_getToken {W} _ _ _.
Arguments pool_close {W} _ _ _.
Arguments sql_connect {W} _ _ _.
Arguments original_run {W} _ _ _ _.

(** The state of a run, and what a finished run leaves. *)
Record Run (W A : Type) := {
  outcome : Settled A;
  globals : Globals;
  world : W;
  calls : list Call
}.

Arguments outcome {W A} _.
Arguments globals {W A} _.
Arguments world {W A} _.
Arguments calls {W A} _.

Section Interpreter.
Context {W : Type} (rt : Runtime W).

(** One event: its answer, the globals and the world after it, and the
    external call it made, if any. *)
Definition perform {X : Type} (ev : Event X) (g : Globals) (w : W)
  : X * Globals * W * list Call :=
  match ev in Event X return X * Globals * W * list Call with
  | GetGlobals => (g, g, w, [])
  | SetGlobalSqlPool p =>
      (tt, {| globalSqlPool := p;
              globalAccessToken := globalAccessToken g;
              globalTokenExpiresOn := globalTokenExpiresOn g |}, w, [])
  | SetGlobalAccessToken t =>
      (tt, {| globalSqlPool := globalSqlPool g;
              globalAccessToken := t;
              globalTokenExpiresOn := globalTokenExpiresOn g |}, w, [])
  | SetGlobalTokenExpiresOn d =>
      (tt, {| globalSqlPool := globalSqlPool g;
              globalAccessToken := globalAccessToken g;
              globalTokenExpiresOn := d |}, w, [])
  | PoolConnected p => (pool_connected rt w p, g, w, [])
  | DateNow => (date_now rt w, g, w, [])
  | Console l args => (tt, g, w, [console_call l args])
  | JsonStringify v => (json_stringify rt v, g, w, [])
  | CredentialGetToken scope =>
      let '(r, w') := credential_getToken rt scope w in (r, g, w', [getToken_call scope r])
  | PoolClose p =>
      let '(r, w') := pool_close rt p w in (r, g, w', [close_call p r])
  | SqlConnect cfg =>
      let '(r, w') := sql_connect rt cfg w in (r, g, w', [connect_call cfg r])
  | OriginalRun t args =>
      let '(r, w') := original_run rt t args w in (r, g, w', [run_call t args r])
  | Resume => (tt, g, w, [])
  end.

(** A program run to its end, alone. *)
Fixpoint exec {A : Type} (p : Prog A) (g : Globals) (w : W) : Run W A :=
  match p with
  | Ret a => {| outcome := resolved a; globals := g; world := w; calls := [] |}
  | Throw e => {| outcome := rejected e; globals := g; world := w; calls := [] |}
  | Vis ev k =>
      let '(x, g1, w1, c1) := perform ev g w in
      let r := exec (k x) g1 w1 in
      {| outcome := outcome r; globals := globals r; world := world r;
         calls := (c1 ++ calls r)%list |}
  end.

End Interpreter.

(** ** The program *)

(** [process.env.AUTH_TYPE?.toLowerCase() || "azure"], as both
    [createSqlConfig] and [ensureSqlConnection] compute it. *)
Definition authTypeOf (env : Env) : string :=
  or_else (toLowerCase <$> env !! "AUTH_TYPE") "azure".

(** The fields every mode starts from. *)
Definition baseConfigOf (env : Env) : SqlConfig :=
  let trustServerCertificate :=
    match env !! "TRUST_SERVER_CERTIFICATE" with
    | Some s => String.eqb (toLowerCase s) "true"
    | None => false
    end in
  let connectionTimeout : Number :=
    if truthy (env !! "CONNECTION_TIMEOUT")
    then parseInt10 (default "" (env !! "CONNECTION_TIMEOUT"))
    else Some 30 in
  {| server := env !! "SERVER_NAME";
     database := env !! "DATABASE_NAME";
     options := {| encrypt := true;
                   trustServerCertificate := trustServerCertificate;
                   enableArithAbort := None |};
     connectionTimeout := (fun n => n * 1000) <$> connectionTimeout;
     authentication := None;
     user := None;
     password := None |}.

(** [{ ...baseConfig, options: { encrypt: ..., trustServerCertificate:
    true, enableArithAbort: true } }] of the windows branch. *)
Definition windowsConfigOf (env : Env) : SqlConfig :=
  let baseConfig := baseConfigOf env in
  {| server := server baseConfig;
     database := database baseConfig;
     options :=
       {| encrypt :=
            match env !! "SERVER_NAME" with
            | Some s => if includes s "database.windows.net" then true else false
            | None => false
            end;
          trustServerCertificate := true;
          enableArithAbort := Some true |};
     connectionTimeout := connectionTimeout baseConfig;
     authentication := authentication baseConfig;
     user := user baseConfig;
     password := password baseConfig |}.

(** [{ ...c, authentication: a }] and [{ ...c, user: u, password: p }]. *)
Definition with_authentication (c : SqlConfig) (a : Authentication) : SqlConfig :=
  {| server := server c; database := database c; options := options c;
     connectionTimeout := connectionTimeout c;
     authentication := Some a;
     user := user c; password := password c |}.

Definition with_user_password (c : SqlConfig) (u p : option string) : SqlConfig :=
  {| server := server c; database := database c; options := options c;
     connectionTimeout := connectionTimeout c;
     authentication := authentication c;
     user := u; password := p |}.

Definition tokenScope : string := "https://database.windows.net/.default".

Definition sqlCredentialsMissing : string :=
  "SQL_USERNAME and SQL_PASSWORD environment variables are required for SQL Server authentication".

(** The branch [case "azure": default:] of [createSqlConfig]: a token
    is acquired from the identity provider (making the credential object
    is no interaction of its own); without an expiry from the provider
    the token is taken to last 30 minutes. *)
Definition azureConfig (env : Env) : Prog ConfigResult :=
  accessToken <- call (CredentialGetToken tokenScope) ;;
  let tok := Azure.token <$> accessToken in
  expires <-
    match Azure.expiresOnTimestamp <$> accessToken with
    | Some ts =>
        if negb (ts =? 0) then Ret (new_Date ts)
        else now <- trigger DateNow ;; Ret (new_Date (now + 30 * 60 * 1000))
    | None => now <- trigger DateNow ;; Ret (new_Date (now + 30 * 60 * 1000))
    end ;;
  Ret {| config := with_authentication (baseConfigOf env)
                     (azure_active_directory_access_token tok);
         token := tok;
         expiresOn := Some expires |}.

(** [createSqlConfig]: the [switch] on [authType]. *)
Definition createSqlConfig (env : Env) : Prog ConfigResult :=
  let authType := authTypeOf env in
  if String.eqb authType "windows" || String.eqb authType "ntlm" then
    let windowsConfig := windowsConfigOf env in
    let windowsConfig :=
      if truthy (env !! "WINDOWS_USERNAME") && truthy (env !! "WINDOWS_PASSWORD")
      then with_authentication windowsConfig
             (ntlm (or_else (env !! "WINDOWS_DOMAIN") "")
                   (default "" (env !! "WINDOWS_USERNAME"))
                   (default "" (env !! "WINDOWS_PASSWORD")))
      else windowsConfig in
    Ret {| config := windowsConfig; token := None; expiresOn := None |}
  else if String.eqb authType "sql" || String.eqb authType "sqlserver" then
    if negb (truthy (env !! "SQL_USERNAME")) || negb (truthy (env !! "SQL_PASSWORD"))
    then Throw (new_Error sqlCredentialsMissing)
    else Ret {| config := with_user_password (baseConfigOf env)
                            (env !! "SQL_USERNAME") (env !! "SQL_PASSWORD");
                token := None; expiresOn := None |}
  else azureConfig env.

(** [globalSqlPool && globalSqlPool.connected]. *)
Definition poolConnected : Prog bool :=
  g <- trigger GetGlobals ;;
  match globalSqlPool g with
  | Some p => trigger (PoolConnected p)
  | None => Ret false
  end.

(** "Close old pool if exists". *)
Definition closeOldPool : Prog unit :=
  connected <- poolConnected ;;
  if connected then
    g <- trigger GetGlobals ;;
    match globalSqlPool g with
    | Some p => call (PoolClose p)
    | None => Ret tt
    end
  else Ret tt.

(** The lines written with [console.error] when the windows mode fails. *)
Definition windowsTroubleshooting : list (list string) :=
  [ ["Windows authentication troubleshooting:"];
    ["1. Ensure SQL Server allows Windows authentication"];
    ["2. Check if your Windows user has access to the database"];
    ["3. For local instances, try: SERVER_NAME=localhost or SERVER_NAME=.\SQLEXPRESS"];
    ["4. Consider using SQL authentication instead with AUTH_TYPE=sql"] ].

Fixpoint consoleErrors (lines : list (list string)) : Prog unit :=
  match lines with
  | nil => Ret tt
  | l :: rest => trigger (Console error l) ;; consoleErrors rest
  end.

(** The part of [ensureSqlConnection] for a mode other than "azure",
    once the pool was found absent or not connected. *)
Definition connectWithoutToken (env : Env) : Prog unit :=
  let authType := authTypeOf env in
  try_catch
    (r <- await (createSqlConfig env) ;;
     closeOldPool ;;
     trigger (Console log
       ["Attempting " +:+ authType +:+ " authentication to " +:+
        show (server (config r)) +:+ "\" +:+ show (database (config r))]) ;;
     pool <- call (SqlConnect (config r)) ;;
     trigger (SetGlobalSqlPool (Some pool)) ;;
     trigger (Console log
       ["Successfully connected using " +:+ authType +:+ " authentication"]))
    (fun err =>
       errorMessage <- complete (message_of err) ;;
       trigger (Console error [authType +:+ " authentication failed:"; errorMessage]) ;;
       (if String.eqb authType "windows"
        then consoleErrors windowsTroubleshooting else Ret tt) ;;
       Throw err).

(** The "2 min buffer" of the token check, in milliseconds. *)
Definition refreshSkew : Z := 2 * 60 * 1000.

(** "Azure authentication - check token validity": the condition under
    which the pool is reused, read left to right. *)
Definition tokenStillValid : Prog bool :=
  connected <- poolConnected ;;
  if connected then
    g <- trigger GetGlobals ;;
    if truthy (globalAccessToken g) then
      match globalTokenExpiresOn g with
      | Some expires =>
          now <- trigger DateNow ;;
          Ret (Date_gt expires (new_Date (now + refreshSkew)))
      | None => Ret false
      end
    else Ret false
  else Ret false.

(** "Otherwise, get a new token and reconnect". *)
Definition connectWithToken (env : Env) : Prog unit :=
  r <- await (createSqlConfig env) ;;
  trigger (SetGlobalAccessToken (or_null (token r))) ;;
  trigger (SetGlobalTokenExpiresOn (expiresOn r)) ;;
  closeOldPool ;;
  pool <- call (SqlConnect (config r)) ;;
  trigger (SetGlobalSqlPool (Some pool)).

(** [ensureSqlConnection]. *)
Definition ensureSqlConnection (env : Env) : Prog unit :=
  let authType := authTypeOf env in
  if negb (String.eqb authType "azure") then
    connected <- poolConnected ;;
    if connected then Ret tt else connectWithoutToken env
  else
    valid <- tokenStillValid ;;
    if valid then Ret tt else connectWithToken env.

(** [tool.run] after [wrapToolRun]: every tool of the list is patched. *)
Definition run (env : Env) (t : Tool) (args : Args) : Prog Value :=
  await (ensureSqlConnection env) ;;
  call (OriginalRun t args).

(** ** Request handlers *)

(** [process.env.READONLY === "true"]. *)
Definition isReadOnly (env : Env) : bool :=
  match env !! "READONLY" with
  | Some s => String.eqb s "true"
  | None => false
  end.

(** The handler of [ListToolsRequestSchema]. *)
Definition listTools (env : Env) : list Tool :=
  if isReadOnly env
  then [listTableTool; readDataTool; describeTableTool]
  else [insertDataTool; readDataTool; describeTableTool; updateDataTool;
        createTableTool; createIndexTool; dropTableTool; listTableTool].

(** [{ content: [{ type: "text", text: msg }], isError: true }]. *)
Definition errorResult (msg : string) : CallToolResult :=
  {| content := [textContent msg]; isError := Some true |}.

Definition missingTableName : string :=
  "Missing or invalid 'tableName' argument for describe_table tool.".

(** [!args || typeof args.tableName !== "string"]. *)
Definition invalidTableName (args : Args) : bool :=
  match args with
  | None => true
  | Some fields => negb (is_string (get_field fields "tableName"))
  end.

(** The [return] after the [switch]: the result as indented JSON. *)
Definition respond (result : Value) : Prog CallToolResult :=
  s <- call (JsonStringify result) ;;
  Ret {| content := [{| type := "text"; text := s |}]; isError := None |}.

Section Handlers.

(** The [name] property of each tool object.  The tool classes are
    imported from [./tools/]; the handler only compares their names. *)
Variable toolName : Tool -> string.

(** The [switch (name)] of the call handler: the cases are tried in the
    order they are written, with strict equality. *)
Definition dispatch (env : Env) (name : string) (args : Args) : Prog CallToolResult :=
  if String.eqb name (toolName insertDataTool) then
    result <- await (run env insertDataTool args) ;; respond result
  else if String.eqb name (toolName readDataTool) then
    result <- await (run env readDataTool args) ;; respond result
  else if String.eqb name (toolName updateDataTool) then
    result <- await (run env updateDataTool args) ;; respond result
  else if String.eqb name (toolName createTableTool) then
    result <- await (run env createTableTool args) ;; respond result
  else if String.eqb name (toolName createIndexTool) then
    result <- await (run env createIndexTool args) ;; respond result
  else if String.eqb name (toolName listTableTool) then
    result <- await (run env listTableTool args) ;; respond result
  else if String.eqb name (toolName dropTableTool) then
    result <- await (run env dropTableTool args) ;; respond result
  else if String.eqb name (toolName describeTableTool) then
    if invalidTableName args then Ret (errorResult missingTableName)
    else result <- await (run env describeTableTool args) ;; respond result
  else
    Ret (errorResult ("Unknown tool: " +:+ name)).

(** The handler of [CallToolRequestSchema], for
    [request.params = { name, arguments: args }].  The [catch] block
    renders what it caught with a template literal, which may throw in
    its turn. *)
Definition callTool (env : Env) (name : string) (args : Args) : Prog CallToolResult :=
  try_catch (dispatch env name args)
    (fun err =>
       rendering <- complete (template_of err) ;;
       Ret (errorResult ("Error occurred: " +:+ rendering))).

End Handlers.

(** ** Calls in flight together

    A call of an [async] function runs until its first [await]; from
    then on the event loop resumes one suspended call at a time, each
    running until its next [await] or its end.  Nothing else interleaves:
    between two suspensions a call has the globals for itself.  A call
    of the driver, of the identity provider or of a tool is made, and
    logged, as soon as the caller reaches it; the caller is suspended
    from there, and has the answer when it is resumed. *)

(** The events at which the caller is suspended. *)
Definition suspends {X : Type} (ev : Event X) : bool :=
  match ev with
  | CredentialGetToken _ | PoolClose _ | SqlConnect _ | OriginalRun _ _ | Resume => true
  | _ => false
  end.

(** The suspension of a caller that waits for nothing outside. *)
Definition isResume {X : Type} (ev : Event X) : bool :=
  match ev with
  | Resume => true
  | _ => false
  end.

(** The call has returned or thrown. *)
Definition finished {A : Type} (p : Prog A) : bool :=
  match p with
  | Vis _ _ => false
  | _ => true
  end.

(** The calls in flight, with the state they share. *)
Record System (W A : Type) := {
  tasks : list (Prog A);
  shared : Globals;
  outside : W;
  made : list Call
}.

Arguments tasks {W A} _.
Arguments shared {W A} _.
Arguments outside {W A} _.
Arguments made {W A} _.

Section EventLoop.
Context {W : Type} (rt : Runtime W).

(** The synchronous part of a call: up to and including the call it is
    suspended on, whose answer waits for the caller to be resumed. *)
Fixpoint advance {A : Type} (p : Prog A) (g : Globals) (w : W)
  : Prog A * Globals * W * list Call :=
  match p with
  | Vis ev k =>
      if isResume ev then (p, g, w, [])
      else
        let '(x, g1, w1, c1) := perform rt ev g w in
        if suspends ev then (Vis Resume (fun _ => k x), g1, w1, c1)
        else
          let '(p', g2, w2, c2) := advance (k x) g1 w1 in
          (p', g2, w2, (c1 ++ c2)%list)
  | _ => (p, g, w, [])
  end.

(** A suspended call is resumed: it has the answer it waited for, and
    runs to its next suspension. *)
Definition resume {A : Type} (p : Prog A) (g : Globals) (w : W)
  : Prog A * Globals * W * list Call :=
  match p with
  | Vis ev k =>
      let '(x, g1, w1, c1) := perform rt ev g w in
      let '(p', g2, w2, c2) := advance (k x) g1 w1 in
      (p', g2, w2, (c1 ++ c2)%list)
  | _ => (p, g, w, [])
  end.

(** A new call is made: it runs at once up to its first suspension. *)
Definition spawn {A : Type} (p : Prog A) (s : System W A) : System W A :=
  let '(p', g, w, c) := advance p (shared s) (outside s) in
  {| tasks := (tasks s ++ [p'])%list; shared := g; outside := w;
     made := (made s ++ c)%list |}.

(** [n] calls of [p] made one after the other in the same turn. *)
Fixpoint spawnMany {A : Type} (n : nat) (p : Prog A) (s : System W A) : System W A :=
  match n with
  | O => s
  | S m => spawnMany m p (spawn p s)
  end.

(** The event loop resumes the call number [i]. *)
Definition step {A : Type} (i : nat) (s : System W A) : System W A :=
  match tasks s !! i with
  | Some p =>
      let '(p', g, w, c) := resume p (shared s) (outside s) in
      {| tasks := <[i := p']> (tasks s); shared := g; outside := w;
         made := (made s ++ c)%list |}
  | None => s
  end.

(** A schedule: which call is resumed, turn after turn. *)
Definition schedule {A : Type} (turns : list nat) (s : System W A) : System W A :=
  fold_left (fun s i => step i s) turns s.

Definition idle {A : Type} (g : Globals) (w : W) : System W A :=
  {| tasks := []; shared := g; outside := w; made := [] |}.

End EventLoop.

(** The connection attempts among the calls made. *)
Definition isConnect (c : Call) : bool :=
  match c with
  | connect_call _ _ => true
  | _ => false
  end.

Definition connects (cs : list Call) : nat := length (List.filter isConnect cs).

Arguments connects : simpl never.

(** ** A driver to run the program against

    A small world in which the program can be executed: the clock, the
    pools that are connected, the number of pools created so far, and
    how the identity provider, the server and the tools answer. *)

Module Sim.

Record World := {
  clock : N;
  connected : list Pool;
  created : nat;
  provider : Settled (option Azure.AccessToken);
  reachable : bool;
  closing : Settled unit;
  answer : Settled Value
}.

Definition connectionError : Thrown :=
  ErrorObject "ConnectionError" "Failed to connect".

Definition getToken (scope : string) (w : World)
  : Settled (option Azure.AccessToken) * World := (provider w, w).

(** A pool that was closed is no longer connected; a close that fails
    leaves the pool as it was. *)
Definition close (p : Pool) (w : World) : Settled unit * World :=
  match closing w with
  | resolved _ =>
      (resolved tt,
       {| clock := clock w; connected := List.filter (fun q => negb (Nat.eqb q p)) (connected w);
          created := created w; provider := provider w; reachable := reachable w;
          closing := closing w; answer := answer w |})
  | rejected e => (rejected e, w)
  end.

(** A successful connect makes a new pool, which is connected. *)
Definition connect (cfg : SqlConfig) (w : World) : Settled Pool * World :=
  if reachable w then
    (resolved (created w),
     {| clock := clock w; connected := created w :: connected w;
        created := S (created w); provider := provider w; reachable := reachable w;
        closing := closing w; answer := answer w |})
  else (rejected connectionError, w).

(** [JSON.stringify] on the scalars the simulated tools return. *)
Definition stringify (v : Value) : Settled (option string) :=
  match v with
  | VUndefined => resolved None
  | VNull => resolved (Some "null")
  | VBool true => resolved (Some "true")
  | VBool false => resolved (Some "false")
  | VStr s => resolved (Some (String (ascii_of_nat 34) s +:+ String (ascii_of_nat 34) ""))
  | _ => rejected (ErrorObject "TypeError" "Converting circular structure to JSON")
  end.

Definition runtime : Runtime World :=
  {| date_now := fun w => Z.of_N (clock w);
     pool_connected := fun w p => existsb (Nat.eqb p) (connected w);
     json_stringify := stringify;
     credential_getToken := getToken;
     pool_close := close;
     sql_connect := connect;
     original_run := fun _ _ w => (answer w, w) |}.

(** A world with no pool yet, at time [now], where everything works:
    the provider issues a token good for an hour. *)
Definition fresh (now : N) : World :=
  {| clock := now; connected := []; created := 0;
     provider := resolved (Some {| Azure.token := "tok";
                                   Azure.expiresOnTimestamp := Z.of_N now + 3600000 |});
     reachable := true; closing := resolved tt; answer := resolved VNull |}.

(** The names the tools go by in the runs below; the handler itself is
    stated for any naming. *)
Definition toolName (t : Tool) : string :=
  match t with
  | insertDataTool => "insert_data"
  | readDataTool => "read_data"
  | updateDataTool => "update_data"
  | createTableTool => "create_table"
  | createIndexTool => "create_index"
  | listTableTool => "list_table"
  | dropTableTool => "drop_table"
  | describeTableTool => "describe_table"
  end.

End Sim.

(** * Notions used in the statements *)

(** ** Composing runs *)

(** The run of [p] followed, when it returned, by the run [k] of what
    comes next. *)
Definition andThen {W A B : Type} (r : Run W A) (k : A -> Globals -> W -> Run W B)
  : Run W B :=
  match outcome r with
  | resolved a =>
      let r' := k a (globals r) (world r) in
      {| outcome := outcome r'; globals := globals r'; world := world r';
         calls := (calls r ++ calls r')%list |}
  | rejected e =>
      {| outcome := rejected e; globals := globals r; world := world r;
         calls := calls r |}
  end.

(** The run of [p] followed, when it threw, by the run [h] of the
    handler. *)
Definition orCatch {W A : Type} (r : Run W A) (h : Thrown -> Globals -> W -> Run W A)
  : Run W A :=
  match outcome r with
  | resolved a => r
  | rejected e =>
      let r' := h e (globals r) (world r) in
      {| outcome := outcome r'; globals := globals r'; world := world r';
         calls := (calls r ++ calls r')%list |}
  end.

(** [c] logged before the run [r]. *)
Definition prepend {W A : Type} (c : list Call) (r : Run W A) : Run W A :=
  {| outcome := outcome r; globals := globals r; world := world r;
     calls := (c ++ calls r)%list |}.

(** ** Validity of the connection *)

(** The pool the manager holds reports itself connected. *)
Definition poolAlive {W : Type} (rt : Runtime W) (g : Globals) (w : W) : bool :=
  match globalSqlPool g with
  | Some p => pool_connected rt w p
  | None => false
  end.

(** A token is held whose expiry lies more than the refresh skew ahead. *)
Definition leaseFresh {W : Type} (rt : Runtime W) (g : Globals) (w : W) : bool :=
  truthy (globalAccessToken g) &&
  match globalTokenExpiresOn g with
  | Some expires => Date_gt expires (new_Date (date_now rt w + refreshSkew))
  | None => false
  end.

(** The connection is usable as it is: alive and, in the "azure" mode,
    with a fresh lease. *)
Definition usable {W : Type} (rt : Runtime W) (env : Env) (g : Globals) (w : W) : bool :=
  if negb (String.eqb (authTypeOf env) "azure") then poolAlive rt g w
  else poolAlive rt g w && leaseFresh rt g w.

(** The sequence that resolves credentials and connects. *)
Definition establish (env : Env) : Prog unit :=
  if negb (String.eqb (authTypeOf env) "azure")
  then connectWithoutToken env else connectWithToken env.

(** The run that returns [a] at once: no call, no change. *)
Definition untouched {W A : Type} (a : A) (g : Globals) (w : W) : Run W A :=
  {| outcome := resolved a; globals := g; world := w; calls := [] |}.

(** ** Tactics for goals about runs *)

(** Case analysis on the next answer of the runtime, or on the next
    test, in a goal about a run. *)
Ltac step_runtime :=
  match goal with
  | |- context [credential_getToken ?rt ?s ?w] =>
      destruct (credential_getToken rt s w) as [[[?|]|?] ?] eqn:?
  | |- context [pool_close ?rt ?p ?w] =>
      destruct (pool_close rt p w) as [[[]|?] ?] eqn:?
  | |- context [sql_connect ?rt ?c ?w] =>
      destruct (sql_connect rt c w) as [[?|?] ?] eqn:?
  | |- context [pool_connected ?rt ?w ?p] =>
      destruct (pool_connected rt w p) eqn:?
  | |- context [match globalSqlPool ?g with _ => _ end] =>
      destruct (globalSqlPool g) eqn:?
  | |- context [message_of ?e] => destruct (message_of e) eqn:?
  | |- context [if ?b then _ else _] => destruct b eqn:?
  end.

(** A run followed through all its branches. *)
Ltac run_through := simpl; repeat (step_runtime; simpl).

(** The establishment sequence laid open, down to its events. *)
Ltac unfold_establish :=
  unfold establish, connectWithoutToken, connectWithToken, createSqlConfig,
    azureConfig, closeOldPool, poolConnected, await, call, complete, trigger.

(** ** States and worlds of the examples *)

(** The manager's globals when it holds pool [p] and a token that
    expires at [expiresAt]. *)
Definition holding (p : Pool) (tok : string) (expiresAt : Z) : Globals :=
  {| globalSqlPool := Some p;
     globalAccessToken := Some tok;
     globalTokenExpiresOn := Some (new_Date expiresAt) |}.

(** A world at time 1000 in which pool 0 is connected. *)
Definition connectedWorld : Sim.World :=
  {| Sim.clock := 1000; Sim.connected := [0%nat]; Sim.created := 1;
     Sim.provider := Sim.provider (Sim.fresh 1000);
     Sim.reachable := true; Sim.closing := resolved tt;
     Sim.answer := resolved VNull |}.

(** A world at time 1000 with no pool, where the server refuses
    connections. *)
Definition offlineWorld : Sim.World :=
  {| Sim.clock := 1000; Sim.connected := []; Sim.created := 0;
     Sim.provider := Sim.provider (Sim.fresh 1000);
     Sim.reachable := false; Sim.closing := resolved tt;
     Sim.answer := resolved VNull |}.



(** ** The call handler, case by case *)

(** The cases of the [switch], in the order they are written. *)
Definition switchOrder : list Tool :=
  [insertDataTool; readDataTool; updateDataTool; createTableTool;
   createIndexTool; listTableTool; dropTableTool; describeTableTool].

(** The tool a name stands for: the first case it is equal to. *)
Definition resolve (toolName : Tool -> string) (name : string) : option Tool :=
  List.find (fun t => String.eqb name (toolName t)) switchOrder.

(** What a case of the [switch] does with the arguments, followed by
    the [return] after the [switch]. *)
Definition invoke (env : Env) (t : Tool) (args : Args) : Prog CallToolResult :=
  result <- await (run env t args) ;; respond result.

(** The three kinds of response the handler builds. *)
Definition unknownTool (name : string) : CallToolResult :=
  errorResult ("Unknown tool: " +:+ name).

Definition errorOccurred (rendering : string) : CallToolResult :=
  errorResult ("Error occurred: " +:+ rendering).

Definition success (s : option string) : CallToolResult :=
  {| content := [{| type := "text"; text := s |}]; isError := None |}.

(** What the [catch] block of the handler completes with, for what it
    caught. *)
Definition rescue (e : Thrown) : Settled CallToolResult :=
  match template_of e with
  | resolved rendering => resolved (errorOccurred rendering)
  | rejected e' => rejected e'
  end.


(** What a logged call threw, if it did. *)
Definition failure (c : Call) : option Thrown :=
  match c with
  | getToken_call _ (rejected e) => Some e
  | close_call _ (rejected e) => Some e
  | connect_call _ (rejected e) => Some e
  | run_call _ _ (rejected e) => Some e
  | _ => None
  end.

(** The run of the tool body and of the final [JSON.stringify]. *)
Definition bodyRun {W : Type} (rt : Runtime W) (t : Tool) (args : Args) (g : Globals) (w : W)
  : Run W CallToolResult :=
  let '(r, w') := original_run rt t args w in
  {| outcome :=
       match r with
       | resolved v =>
           match json_stringify rt v with
           | resolved s => resolved (success s)
           | rejected e => rejected e
           end
       | rejected e => rejected e
       end;
     globals := g; world := w'; calls := [run_call t args r] |}.

(** One of the logged calls threw [e]. *)
Definition failedWith (l : list Call) (e : Thrown) : Prop :=
  In (Some e) (map failure l).

Arguments failedWith : simpl never.

(** What was thrown can be put in the log line that the [catch] block
    of [ensureSqlConnection] writes before it throws it again; the
    "azure" mode has no such block. *)
Definition reportable (env : Env) (e : Thrown) : Prop :=
  authTypeOf env = "azure" \/ exists m, message_of e = resolved m.

(** That a logged call is the body of a tool. *)
Definition isBody (c : Call) : bool :=
  match c with
  | run_call _ _ _ => true
  | _ => false
  end.

(** [args.tableName], [undefined] when there are no arguments. *)
Definition tableNameArgument (args : Args) : Value :=
  match args with
  | Some fields => get_field fields "tableName"
  | None => VUndefined
  end.

(** ** Configurations *)

(** An environment in the windows mode, read-only, for a local server. *)
Definition readOnlyEnv : Env :=
  <["READONLY" := "true"]> (<["AUTH_TYPE" := "windows"]> (<["SERVER_NAME" := "localhost"]> ∅)).

(** A server address that names the cloud endpoint. *)
Definition cloudEndpoint (serverName : option string) : bool :=
  match serverName with
  | Some s => includes s "database.windows.net"
  | None => false
  end.

(** The mode of integrated credentials. *)
Definition integrated (env : Env) : Prop :=
  authTypeOf env = "windows" \/ authTypeOf env = "ntlm".

(** The claim that the default of the encryption flag can be overridden:
    two windows configurations for the same server with different
    flags. *)
Definition encryptOverridable : Prop :=
  exists (env env' : Env) r r',
    integrated env /\ integrated env' /\
    env !! "SERVER_NAME" = env' !! "SERVER_NAME" /\
    createSqlConfig env = Ret r /\ createSqlConfig env' = Ret r' /\
    encrypt (options (config r)) <> encrypt (options (config r')).

(** The names [createSqlConfig] has a case for, besides "azure". *)
Definition recognizedOther (authType : string) : bool :=
  String.eqb authType "windows" || String.eqb authType "ntlm" ||
  String.eqb authType "sql" || String.eqb authType "sqlserver".

(** An environment with a mode that is none of the names. *)
Definition kerberosEnv : Env := <["AUTH_TYPE" := "kerberos"]> ∅.

(** ** Assumptions on the driver *)

(** What is assumed of the driver and of the identity provider: a pool
    that was closed is not connected; a connect that failed and a token
    request connect no pool; the clock reads a time after 1970 and does
    not go back while a token is requested. *)
Record Driver {W : Type} (rt : Runtime W) : Prop := {
  closed_is_disconnected : forall p w w',
    pool_close rt p w = (resolved tt, w') -> pool_connected rt w' p = false;
  failed_connect_no_pool : forall cfg w e w' p,
    sql_connect rt cfg w = (rejected e, w') ->
    pool_connected rt w' p = pool_connected rt w p;
  getToken_no_pool : forall scope w r w' p,
    credential_getToken rt scope w = (r, w') ->
    pool_connected rt w' p = pool_connected rt w p;
  getToken_clock : forall scope w r w',
    credential_getToken rt scope w = (r, w') -> date_now rt w <= date_now rt w';
  clock_positive : forall w, 0 <= date_now rt w
}.

(** That a logged call is a close that threw. *)
Definition closeFailed (c : Call) : bool :=
  match c with
  | close_call _ (rejected _) => true
  | _ => false
  end.

(** The pool found in [globalSqlPool], under one name. *)
Ltac same_pool :=
  repeat match goal with
  | H : Some _ = Some _ |- _ => injection H as <-
  | H : globalSqlPool ?g = _ |- _ => rewrite H in *; clear H
  end.

(** Whether a pool is connected, traced back through the calls made
    since it was last known. *)
Ltac settle_pool D :=
  repeat first
    [ match goal with
      | H : pool_connected _ _ _ = _ |- _ => rewrite H
      end
    | erewrite (failed_connect_no_pool _ D) by eassumption
    | erewrite (getToken_no_pool _ D) by eassumption
    | erewrite (closed_is_disconnected _ D) by eassumption ].

(** ** Connection attempts of calls in flight *)

(** The event of a connection attempt. *)
Definition connectEvent {X : Type} (ev : Event X) : bool :=
  match ev with
  | SqlConnect _ => true
  | _ => false
  end.

(** The call makes no connection attempt from here on. *)
Fixpoint connectsNoMore (p : Prog unit) : Prop :=
  match p with
  | Vis ev k => connectEvent ev = false /\ forall x, connectsNoMore (k x)
  | _ => True
  end.

(** The call has yet to make its connection attempt: it cannot return
    without making one, and makes no second one. *)
Fixpoint connectsOnce (p : Prog unit) : Prop :=
  match p with
  | Ret _ => False
  | Throw _ => True
  | Vis ev k =>
      if connectEvent ev then forall x, connectsNoMore (k x)
      else forall x, connectsOnce (k x)
  end.

(** How many calls have made their attempt. *)
Fixpoint countDone (done : list bool) : nat :=
  match done with
  | nil => 0
  | b :: rest => (if b then 1 else 0) + countDone rest
  end%nat.

(** Where a call stands: its attempt made ([true]) or yet to make. *)
Definition standing (p : Prog unit) (b : bool) : Prop :=
  if b then connectsNoMore p else connectsOnce p.

(** Every connection attempt made so far is that of one call, and no
    call has made two. *)
Definition accounted {W : Type} (s : System W unit) : Prop :=
  exists done : list bool,
    Forall2 standing (tasks s) done /\ connects (made s) = countDone done.

(** ** Notions of the further properties *)

(** The mode of user name and password. *)
Definition sqlMode (env : Env) : Prop :=
  authTypeOf env = "sql" \/ authTypeOf env = "sqlserver".

(** The expiry kept for a token the provider answered with, the clock
    reading [now] when the answer came. *)
Definition expiryOf (answer : option Azure.AccessToken) (now : Z) : Date :=
  match answer with
  | Some a =>
      if negb (Azure.expiresOnTimestamp a =? 0)
      then new_Date (Azure.expiresOnTimestamp a)
      else new_Date (now + 30 * 60 * 1000)
  | None => new_Date (now + 30 * 60 * 1000)
  end.

(** The three steps of an establishment that leave the process. *)
Inductive Step := acquireToken | closeOld | openNew.

Definition stepOf (c : Call) : option Step :=
  match c with
  | getToken_call _ _ => Some acquireToken
  | close_call _ _ => Some closeOld
  | connect_call _ _ => Some openNew
  | _ => None
  end.

(** The steps among the calls of a run, in the order they were made. *)
Fixpoint steps (cs : list Call) : list Step :=
  match cs with
  | nil => nil
  | c :: rest =>
      match stepOf c with
      | Some s => s :: steps rest
      | None => steps rest
      end
  end.

(** The pool a call closes, with other calls in flight. *)

(** What a call has seen of [globalSqlPool] since it was last resumed:
    nothing yet, the pool it read there, or its own assignment. *)
Inductive Sight := unseen | seen (p : option Pool) | assigned.

Definition sightAfter {X : Type} (ev : Event X) (s : Sight) : X -> Sight :=
  match ev in Event X return X -> Sight with
  | GetGlobals =>
      fun g => match s with
               | assigned => assigned
               | _ => seen (globalSqlPool g)
               end
  | SetGlobalSqlPool _ => fun _ => assigned
  | CredentialGetToken _ => fun _ => unseen
  | PoolClose _ => fun _ => unseen
  | SqlConnect _ => fun _ => unseen
  | OriginalRun _ _ => fun _ => unseen
  | Resume => fun _ => unseen
  | _ => fun _ => s
  end.

(** A close is of the pool just seen in [globalSqlPool]. *)
Definition closeAllowed {X : Type} (ev : Event X) (s : Sight) : Prop :=
  match ev with
  | PoolClose q => s = seen (Some q)
  | _ => True
  end.

(** Every close the call makes from here on is of the pool it has seen
    in [globalSqlPool] since it was last resumed. *)
Fixpoint closesWhatItSees (s : Sight) (p : Prog unit) : Prop :=
  match p with
  | Vis ev k => closeAllowed ev s /\ forall x, closesWhatItSees (sightAfter ev s x) (k x)
  | _ => True
  end.

(** What was seen is what [globalSqlPool] holds. *)
Definition agrees (s : Sight) (g : Globals) : Prop :=
  forall x, s = seen x -> globalSqlPool g = x.

(** The names of the tools are distinct. *)
Definition distinctNames (toolName : Tool -> string) : Prop :=
  forall a b, toolName a = toolName b -> a = b.

(** That a logged call is not a line of the console. *)
Definition leavesProcess (c : Call) : bool :=
  match c with
  | console_call _ _ => false
  | _ => true
  end.

(** A world at time 1000 where the provider issues a token without an
    expiry and the server refuses connections. *)
Definition noExpiryWorld : Sim.World :=
  {| Sim.clock := 1000; Sim.connected := []; Sim.created := 0;
     Sim.provider := resolved (Some {| Azure.token := "tok";
                                       Azure.expiresOnTimestamp := 0 |});
     Sim.reachable := false; Sim.closing := resolved tt;
     Sim.answer := resolved VNull |}.

(** A world at time 1000 in which pool 0 is connected and cannot be
    closed. *)
Definition stuckPoolWorld : Sim.World :=
  {| Sim.clock := 1000; Sim.connected := [0%nat]; Sim.created := 1;
     Sim.provider := Sim.provider (Sim.fresh 1000);
     Sim.reachable := true;
     Sim.closing := rejected (ErrorObject "ConnectionError" "Cannot close a pool while it is connecting");
     Sim.answer := resolved VNull |}.

(** A world at time 1000 with no pool, where the provider answers with
    an empty token. *)
Definition emptyTokenWorld : Sim.World :=
  {| Sim.clock := 1000; Sim.connected := []; Sim.created := 0;
     Sim.provider := resolved (Some {| Azure.token := "";
                                       Azure.expiresOnTimestamp := 3601000 |});
     Sim.reachable := true; Sim.closing := resolved tt;
     Sim.answer := resolved VNull |}.

(** The variables of the environment that the program reads besides
    AUTH_TYPE; READONLY is read by the list handler alone. *)
Definition otherVariables : list string :=
  ["TRUST_SERVER_CERTIFICATE"; "CONNECTION_TIMEOUT"; "SERVER_NAME";
   "DATABASE_NAME"; "WINDOWS_USERNAME"; "WINDOWS_PASSWORD"; "WINDOWS_DOMAIN";
   "SQL_USERNAME"; "SQL_PASSWORD"].

(** * Properties *)

(** ** The embedding at work *)

Example toLowerCase_mixed : toLowerCase "WinDows" = "windows".
Proof. reflexivity. Qed.

Example includes_is_case_sensitive :
  includes "srv.database.windows.net" "database.windows.net" = true /\
  includes "SRV.DATABASE.WINDOWS.NET" "database.windows.net" = false.
Proof. split; reflexivity. Qed.

Example parseInt10_values :
  parseInt10 "15" = Some 15 /\ parseInt10 " 42px" = Some 42 /\
  parseInt10 "-7" = Some (-7) /\ parseInt10 "abc" = None.
Proof. repeat split. Qed.

Example authTypeOf_values :
  authTypeOf ∅ = "azure" /\
  authTypeOf (<["AUTH_TYPE" := ""]> ∅) = "azure" /\
  authTypeOf (<["AUTH_TYPE" := "NTLM"]> ∅) = "ntlm".
Proof. repeat split. Qed.

(** What is thrown, as the two [catch] blocks render it: the one of
    [ensureSqlConnection] takes the message of an error and [String(v)]
    of anything else, the one of the call handler a template literal. *)
Example renderings_of_what_is_thrown :
  message_of (new_Error "Login failed") = resolved "Login failed" /\
  template_of (new_Error "Login failed") = resolved "Error: Login failed" /\
  template_of (OtherValue "42") = resolved "42" /\
  message_of (SymbolValue "busy") = resolved "Symbol(busy)" /\
  template_of (SymbolValue "busy")
  = rejected (new_TypeError "Cannot convert a Symbol value to a string") /\
  message_of (Unconvertible (new_TypeError "Cannot convert object to primitive value"))
  = rejected (new_TypeError "Cannot convert object to primitive value").
Proof. repeat split. Qed.

(** The sql mode without its credentials: no call is made. *)
Example sql_mode_needs_credentials :
  createSqlConfig (<["AUTH_TYPE" := "sql"]> ∅)
  = Throw (new_Error sqlCredentialsMissing).
Proof. reflexivity. Qed.

(** A lease that expires in 90 seconds, the skew being 120: a new token
    is acquired, the old pool is closed, a new one is opened. *)
Example stale_lease_reconnects :
  map failure (calls (exec Sim.runtime (ensureSqlConnection ∅)
                           (holding 0%nat "tok" 91000) connectedWorld))
  = [None; None; None] /\
  map isConnect (calls (exec Sim.runtime (ensureSqlConnection ∅)
                             (holding 0%nat "tok" 91000) connectedWorld))
  = [false; false; true] /\
  globals (exec Sim.runtime (ensureSqlConnection ∅)
                (holding 0%nat "tok" 91000) connectedWorld)
  = holding 1%nat "tok" 3601000 /\
  Sim.connected (world (exec Sim.runtime (ensureSqlConnection ∅)
                             (holding 0%nat "tok" 91000) connectedWorld))
  = [1%nat].
Proof. vm_compute. repeat split. Qed.

(** A call made when there is no connection is suspended once it has
    asked for a token: the request has left, the answer is awaited. *)
Example suspended_on_the_token_request :
  made (spawn Sim.runtime (ensureSqlConnection ∅)
          (idle initialGlobals (Sim.fresh 1000)))
  = [getToken_call tokenScope (Sim.provider (Sim.fresh 1000))] /\
  map finished (tasks (spawn Sim.runtime (ensureSqlConnection ∅)
                         (idle initialGlobals (Sim.fresh 1000))))
  = [false].
Proof. vm_compute. split; reflexivity. Qed.

(** ** Laws of the interpreter *)

Section ExecLaws.
Context {W : Type} (rt : Runtime W).

(** A run is the record of its four parts. *)
Lemma run_eta {A : Type} (r : Run W A) :
  {| outcome := outcome r; globals := globals r; world := world r; calls := calls r |} = r.
Proof. destruct r; reflexivity. Qed.

(** Sequencing and [try]/[catch], run by run. *)
Lemma exec_bind {A B : Type} (p : Prog A) (f : A -> Prog B) g w :
  exec rt (bind p f) g w = andThen (exec rt p g w) (fun a => exec rt (f a)).
Proof.
  revert g w; induction p as [a|e|X ev k IH]; intros g w; simpl.
  - unfold andThen; simpl. now rewrite run_eta.
  - reflexivity.
  - destruct (perform rt ev g w) as [[[x g1] w1] c1].
    rewrite IH. unfold andThen.
    destruct (exec rt (k x) g1 w1) as [[a|e] g2 w2 c2]; simpl; [|reflexivity].
    now rewrite app_assoc.
Qed.

Lemma exec_try_catch {A : Type} (p : Prog A) (h : Thrown -> Prog A) g w :
  exec rt (try_catch p h) g w = orCatch (exec rt p g w) (fun e => exec rt (h e)).
Proof.
  revert g w; induction p as [a|e|X ev k IH]; intros g w; simpl.
  - reflexivity.
  - unfold orCatch; simpl. now rewrite run_eta.
  - destruct (perform rt ev g w) as [[[x g1] w1] c1].
    rewrite IH. unfold orCatch.
    destruct (exec rt (k x) g1 w1) as [[a|e] g2 w2 c2]; simpl; [reflexivity|].
    now rewrite app_assoc.
Qed.

(** An [await] on one of the program's own functions changes nothing
    for a call that runs alone. *)
Lemma exec_await {A : Type} (p : Prog A) g w :
  exec rt (await p) g w = exec rt p g w.
Proof.
  unfold await. rewrite exec_try_catch, exec_bind.
  unfold orCatch, andThen.
  destruct (exec rt p g w) as [[a|e] g' w' c]; simpl; now rewrite app_nil_r.
Qed.

(** The event loop agrees with the interpreter: running the
    synchronous part of a call, or resuming it once, and then running
    what is left to its end, is running the call to its end. *)
Lemma exec_advance {A : Type} (p : Prog A) g w :
  exec rt p g w =
  let '(p', g', w', c) := advance rt p g w in prepend c (exec rt p' g' w').
Proof.
  revert g w; induction p as [a|e|X ev k IH]; intros g w; simpl;
    try reflexivity.
  destruct (isResume ev).
  - unfold prepend; simpl. destruct (perform rt ev g w) as [[[x g1] w1] c1].
    reflexivity.
  - destruct (perform rt ev g w) as [[[x g1] w1] c1].
    destruct (suspends ev); [reflexivity|]. rewrite IH.
    destruct (advance rt (k x) g1 w1) as [[[p' g2] w2] c2].
    unfold prepend; simpl. now rewrite app_assoc.
Qed.

Lemma exec_resume {A : Type} (p : Prog A) g w :
  exec rt p g w =
  let '(p', g', w', c) := resume rt p g w in prepend c (exec rt p' g' w').
Proof.
  destruct p as [a|e|X ev k]; simpl; try reflexivity.
  destruct (perform rt ev g w) as [[[x g1] w1] c1].
  rewrite (exec_advance (k x) g1 w1).
  destruct (advance rt (k x) g1 w1) as [[[p' g2] w2] c2].
  unfold prepend; simpl. now rewrite app_assoc.
Qed.

End ExecLaws.

(** ** When a connection is reused *)

Section Validity.
Context {W : Type} (rt : Runtime W).

Lemma exec_poolConnected g w :
  exec rt poolConnected g w = untouched (poolAlive rt g w) g w.
Proof.
  unfold poolConnected, poolAlive, untouched. simpl.
  destruct (globalSqlPool g); reflexivity.
Qed.

Lemma exec_tokenStillValid g w :
  exec rt tokenStillValid g w = untouched (poolAlive rt g w && leaseFresh rt g w) g w.
Proof.
  unfold tokenStillValid. rewrite exec_bind, exec_poolConnected.
  unfold andThen, untouched, leaseFresh; simpl.
  destruct (poolAlive rt g w); simpl; [|reflexivity].
  destruct (truthy (globalAccessToken g)); simpl; [|reflexivity].
  destruct (globalTokenExpiresOn g); reflexivity.
Qed.

(** [ensureSqlConnection] returns at once on a usable connection, and
    otherwise is the establishment sequence. *)
Lemma exec_ensureSqlConnection env g w :
  exec rt (ensureSqlConnection env) g w =
  if usable rt env g w then untouched tt g w else exec rt (establish env) g w.
Proof.
  unfold ensureSqlConnection, usable, establish.
  destruct (negb (String.eqb (authTypeOf env) "azure")).
  - rewrite exec_bind, exec_poolConnected. unfold andThen, untouched; simpl.
    destruct (poolAlive rt g w); simpl; [reflexivity|].
    now destruct (exec rt (connectWithoutToken env) g w).
  - rewrite exec_bind, exec_tokenStillValid. unfold andThen, untouched; simpl.
    destruct (poolAlive rt g w && leaseFresh rt g w); simpl; [reflexivity|].
    now destruct (exec rt (connectWithToken env) g w).
Qed.

End Validity.

(** ** Runs of the establishment sequence *)

(** The sequence attempts at most one connect, and exactly one when it
    completes. *)
Lemma establish_connects {W : Type} (rt : Runtime W) env g w :
  (connects (calls (exec rt (establish env) g w)) <= 1)%nat /\
  (outcome (exec rt (establish env) g w) = resolved tt ->
   connects (calls (exec rt (establish env) g w)) = 1%nat).
Proof.
  unfold_establish. run_through.
  all: unfold connects; simpl; split; [lia | congruence || reflexivity].
Qed.

(** It never assigns [globalSqlPool] unless the connect succeeded. *)
Lemma establish_rejected_pool {W : Type} (rt : Runtime W) env g w e :
  outcome (exec rt (establish env) g w) = rejected e ->
  globalSqlPool (globals (exec rt (establish env) g w)) = globalSqlPool g.
Proof.
  unfold_establish. run_through.
  all: congruence || reflexivity.
Qed.

(** In the "azure" mode it starts by asking the provider for a token. *)
Lemma establish_azure_first_call {W : Type} (rt : Runtime W) env g w :
  authTypeOf env = "azure" ->
  exists r rest,
    calls (exec rt (establish env) g w) = getToken_call tokenScope r :: rest.
Proof.
  intros Hazure. unfold_establish. rewrite Hazure. run_through.
  all: eexists _, _; reflexivity.
Qed.

(** ** Reuse of a valid connection *)

(** C5: two calls of ensureSqlConnection in succession, the connection
    being still connected (and, in the azure mode, the token not within
    the refresh skew of its expiry) when the second is made, perform no
    call beyond those of the first: the second neither acquires a token
    nor opens or closes a connection, and leaves the state as it is. *)
Theorem ensureSqlConnection_twice {W : Type} (rt : Runtime W) env g w :
  let first := exec rt (ensureSqlConnection env) g w in
  outcome first = resolved tt ->
  usable rt env (globals first) (world first) = true ->
  exec rt (ensureSqlConnection env ;; ensureSqlConnection env) g w = first /\
  exec rt (ensureSqlConnection env) (globals first) (world first)
  = untouched tt (globals first) (world first).
Proof.
  intros first Hok Husable. split.
  - rewrite exec_bind. unfold andThen. fold first. rewrite Hok.
    rewrite exec_ensureSqlConnection, Husable. simpl.
    rewrite app_nil_r. rewrite <- Hok. apply run_eta.
  - now rewrite exec_ensureSqlConnection, Husable.
Qed.

(** Two calls in a world where everything works: the first connects,
    the second finds the connection usable. *)
Lemma ensureSqlConnection_twice_witness :
  exec Sim.runtime (ensureSqlConnection ∅ ;; ensureSqlConnection ∅)
       initialGlobals (Sim.fresh 1000)
  = exec Sim.runtime (ensureSqlConnection ∅) initialGlobals (Sim.fresh 1000).
Proof.
  apply (ensureSqlConnection_twice Sim.runtime ∅ initialGlobals (Sim.fresh 1000));
    vm_compute; reflexivity.
Defined.

(** ** The expiry boundary *)

(** C4: in the azure mode, with a connected pool and a token held, a
    lease that expires exactly refreshSkew (2 minutes) after now is not
    valid: ensureSqlConnection runs the reconnection sequence, whose
    first call asks the provider for a new token.  A lease that expires
    one millisecond later is valid: ensureSqlConnection returns at once,
    no call made, the pool and the token kept. *)
Theorem token_expiry_boundary {W : Type} (rt : Runtime W) env p tok w :
  authTypeOf env = "azure" ->
  pool_connected rt w p = true ->
  tok <> "" ->
  - maxTime <= date_now rt w + refreshSkew < maxTime ->
  let now := date_now rt w in
  (exec rt (ensureSqlConnection env) (holding p tok (now + refreshSkew)) w
   = exec rt (connectWithToken env) (holding p tok (now + refreshSkew)) w /\
   exists r rest,
     calls (exec rt (ensureSqlConnection env) (holding p tok (now + refreshSkew)) w)
     = getToken_call tokenScope r :: rest) /\
  exec rt (ensureSqlConnection env) (holding p tok (now + refreshSkew + 1)) w
  = untouched tt (holding p tok (now + refreshSkew + 1)) w.
Proof.
  intros Hazure Hconn Htok Hrange now.
  assert (Htruthy : String.eqb tok "" = false).
  { destruct (String.eqb_spec tok ""); [contradiction|reflexivity]. }
  assert (Hin : forall d, - maxTime <= d <= maxTime -> new_Date d = Some d).
  { intros d Hd. unfold new_Date.
    destruct (Z.leb_spec (Z.abs d) maxTime); [reflexivity|lia]. }
  assert (Hexact : usable rt env (holding p tok (now + refreshSkew)) w = false).
  { unfold usable, poolAlive, leaseFresh, holding; simpl.
    rewrite Hazure, Hconn, Htruthy; simpl. fold now.
    rewrite Hin by (unfold now; lia). simpl. apply Z.ltb_irrefl. }
  assert (Hlater : usable rt env (holding p tok (now + refreshSkew + 1)) w = true).
  { unfold usable, poolAlive, leaseFresh, holding; simpl.
    rewrite Hazure, Hconn, Htruthy; simpl. fold now.
    rewrite !Hin by (unfold now; lia). simpl. apply Z.ltb_lt. lia. }
  assert (Hest : establish env = connectWithToken env).
  { unfold establish. now rewrite Hazure. }
  split; [split|].
  - now rewrite exec_ensureSqlConnection, Hexact, Hest.
  - rewrite exec_ensureSqlConnection, Hexact.
    now apply establish_azure_first_call.
  - now rewrite exec_ensureSqlConnection, Hlater.
Qed.

(** At time 1000 with pool 0 connected: a lease expiring at 121000
    leads to one connect, a lease expiring at 121001 to none. *)
Lemma token_expiry_boundary_witness :
  connects (calls (exec Sim.runtime (ensureSqlConnection ∅)
                        (holding 0%nat "tok" 121000) connectedWorld)) = 1%nat /\
  exec Sim.runtime (ensureSqlConnection ∅) (holding 0%nat "tok" 121001) connectedWorld
  = untouched tt (holding 0%nat "tok" 121001) connectedWorld.
Proof.
  split; [vm_compute; reflexivity|].
  apply (token_expiry_boundary Sim.runtime ∅ 0%nat "tok" connectedWorld);
    [reflexivity | reflexivity | discriminate | vm_compute; split; congruence].
Defined.

(** ** The call handler *)

Lemma dispatch_resolve toolName env name args :
  dispatch toolName env name args =
  match resolve toolName name with
  | Some describeTableTool =>
      if invalidTableName args then Ret (errorResult missingTableName)
      else invoke env describeTableTool args
  | Some t => invoke env t args
  | None => Ret (unknownTool name)
  end.
Proof.
  unfold dispatch, resolve, invoke, unknownTool; simpl.
  repeat (destruct (String.eqb name _); [reflexivity|]).
  reflexivity.
Qed.

Section HandlerRuns.
Context {W : Type} (rt : Runtime W).

Lemma exec_invoke env t args g w :
  exec rt (invoke env t args) g w =
  andThen (exec rt (ensureSqlConnection env) g w) (fun _ => bodyRun rt t args).
Proof.
  unfold invoke, run. rewrite exec_bind, exec_await, exec_bind, exec_await.
  unfold andThen at 2.
  destruct (exec rt (ensureSqlConnection env) g w) as [[[]|e] g1 w1 c1];
    unfold andThen, bodyRun, respond, call; simpl; [|reflexivity].
  destruct (original_run rt t args w1) as [[v|e] w2]; simpl; [|reflexivity].
  destruct (json_stringify rt v); simpl; now rewrite ?app_nil_r.
Qed.

End HandlerRuns.

(** ** Failures are surfaced, and caught by the handler *)

(** A call that failed during the establishment sequence fails the
    sequence, with what the call threw when the [catch] block can
    report it. *)
Lemma establish_failure_surfaces {W : Type} (rt : Runtime W) env g w c e :
  In c (calls (exec rt (establish env) g w)) ->
  failure c = Some e ->
  reportable env e ->
  outcome (exec rt (establish env) g w) = rejected e.
Proof.
  unfold reportable. revert c e. unfold establish.
  destruct (String.eqb (authTypeOf env) "azure") eqn:Hmode; simpl.
  - unfold_establish. run_through.
    all: intros c e' Hin Hfail _; simpl in Hin.
    all: repeat (destruct Hin as [<-|Hin]; [simpl in Hfail; congruence|]).
    all: contradiction.
  - apply String.eqb_neq in Hmode.
    unfold_establish. run_through.
    all: intros c e' Hin Hfail [Hazure|[m Hm]]; [contradiction|]; simpl in Hin.
    all: repeat (destruct Hin as [<-|Hin]; [simpl in Hfail; congruence|]).
    all: contradiction.
Qed.

Lemma failedWith_iff (l : list Call) (e : Thrown) :
  failedWith l e <-> exists c, In c l /\ failure c = Some e.
Proof.
  unfold failedWith. rewrite in_map_iff. firstorder.
Qed.

(** Conversely, a failed sequence failed with what one of its calls
    threw, or for want of the SQL credentials, or with what the
    conversion of the thrown value raised in the [catch] block. *)
Lemma establish_rejected_cause {W : Type} (rt : Runtime W) env g w e :
  outcome (exec rt (establish env) g w) = rejected e ->
  failedWith (calls (exec rt (establish env) g w)) e \/
  e = new_Error sqlCredentialsMissing \/
  exists e0, failedWith (calls (exec rt (establish env) g w)) e0 /\
             message_of e0 = rejected e.
Proof.
  unfold_establish. run_through.
  all: intros Hout; try discriminate Hout.
  all: injection Hout as <-.
  all: first [ right; left; reflexivity
             | solve [ left; unfold failedWith; simpl;
                       repeat (first [left; reflexivity | right]) ]
             | right; right; eexists; split; [|eassumption];
               unfold failedWith; simpl;
               repeat (first [left; reflexivity | right]) ].
Qed.

Lemma ensure_failure_surfaces {W : Type} (rt : Runtime W) env g w e :
  failedWith (calls (exec rt (ensureSqlConnection env) g w)) e ->
  reportable env e ->
  outcome (exec rt (ensureSqlConnection env) g w) = rejected e.
Proof.
  rewrite exec_ensureSqlConnection, failedWith_iff.
  destruct (usable rt env g w); [intros (c & [] & _)|].
  intros (c & Hin & Hfail) Hrep. eapply establish_failure_surfaces; eauto.
Qed.

(** What a template literal renders, the log line renders too. *)
Lemma template_reportable env e s :
  template_of e = resolved s -> reportable env e.
Proof.
  intros H. right. destruct e; simpl in *; try discriminate; eauto.
Qed.

(** The connection manager never enters a tool. *)
Lemma ensure_no_body {W : Type} (rt : Runtime W) env g w :
  existsb isBody (calls (exec rt (ensureSqlConnection env) g w)) = false.
Proof.
  rewrite exec_ensureSqlConnection.
  destruct (usable rt env g w); [reflexivity|].
  unfold_establish. run_through. all: reflexivity.
Qed.

Section HandlerProperties.
Context {W : Type} (rt : Runtime W).

(** What a case of the [switch] comes to: a success envelope when it
    returns; the failure of any call it made, when a template literal
    renders what was thrown; the tool's result, as text, when the body
    returned one. *)
Lemma invoke_responds env t args g w :
  let d := exec rt (invoke env t args) g w in
  (forall resp, outcome d = resolved resp ->
     exists v s, In (run_call t args (resolved v)) (calls d) /\
                 json_stringify rt v = resolved s /\ resp = success s) /\
  (forall e s, failedWith (calls d) e -> template_of e = resolved s ->
     outcome d = rejected e) /\
  (forall t' a' v s, In (run_call t' a' (resolved v)) (calls d) ->
     json_stringify rt v = resolved s -> outcome d = resolved (success s)).
Proof.
  cbv zeta. rewrite exec_invoke. unfold andThen.
  pose proof (ensure_failure_surfaces rt env g w) as Hfail.
  pose proof (ensure_no_body rt env g w) as Hbody.
  destruct (exec rt (ensureSqlConnection env) g w) as [[[]|e0] g1 w1 c1];
    simpl in *.
  - unfold bodyRun. destruct (original_run rt t args w1) as [r w2]; simpl.
    split; [|split].
    + intros resp. destruct r as [v|e]; [|discriminate].
      destruct (json_stringify rt v) as [s|e] eqn:Hs; [|discriminate].
      intros [= <-]. exists v, s. split; [|now split].
      apply in_app_iff. right. now left.
    + intros e s He Hs. apply failedWith_iff in He as (c & Hin & Hc).
      apply in_app_iff in Hin as [Hin|[<-|[]]].
      * assert (failedWith c1 e) as Hf by (apply failedWith_iff; eauto).
        apply Hfail in Hf; [discriminate|]. eapply template_reportable, Hs.
      * destruct r; simpl in Hc; congruence.
    + intros t' a' v s Hin Hs. apply in_app_iff in Hin as [Hin|[[= -> -> ->]|[]]].
      * exfalso. assert (existsb isBody c1 = true) as Ht; [|congruence].
        apply existsb_exists. eexists; split; [exact Hin|reflexivity].
      * now rewrite Hs.
  - split; [|split].
    + discriminate.
    + intros e s He Hs. apply Hfail in He; [congruence|].
      eapply template_reportable, Hs.
    + intros t' a' v s Hin _. exfalso.
      assert (existsb isBody c1 = true) as Ht; [|congruence].
      apply existsb_exists. eexists; split; [exact Hin|reflexivity].
Qed.



(** The handler is the [switch], and the [catch] block on what it
    threw; the block makes no call. *)
Lemma exec_callTool toolName env name args g w :
  exec rt (callTool toolName env name args) g w =
  orCatch (exec rt (dispatch toolName env name args) g w)
    (fun e g' w' => {| outcome := rescue e; globals := g'; world := w'; calls := [] |}).
Proof.
  unfold callTool. rewrite exec_try_catch. unfold orCatch.
  destruct (outcome (exec rt (dispatch toolName env name args) g w)) as [resp|e];
    [reflexivity|].
  unfold rescue, errorOccurred. now destruct (template_of e).
Qed.

(** The calls of a handled request are those of the [switch]. *)
Lemma callTool_calls toolName env name args g w :
  calls (exec rt (callTool toolName env name args) g w)
  = calls (exec rt (dispatch toolName env name args) g w).
Proof.
  rewrite exec_callTool. unfold orCatch.
  destruct (exec rt (dispatch toolName env name args) g w) as [[resp|e] g1 w1 c1];
    simpl; now rewrite ?app_nil_r.
Qed.



End HandlerProperties.

(** The server refuses the connection: the handler answers with what
    the connect threw, as text. *)
Example refused_connection_is_reported :
  outcome (exec Sim.runtime (callTool Sim.toolName ∅ "read_data" None)
                initialGlobals offlineWorld)
  = resolved {| content := [textContent "Error occurred: ConnectionError: Failed to connect"];
                isError := Some true |}.
Proof. reflexivity. Qed.

(** ** What the handler checks, and what it does not *)

Lemma invalidTableName_spec args :
  invalidTableName args = negb (is_string (tableNameArgument args)).
Proof. destruct args; reflexivity. Qed.

(** A case other than that of [describeTableTool] hands the arguments
    to the tool as they came. *)
Lemma dispatch_other toolName env name args t :
  resolve toolName name = Some t ->
  t <> describeTableTool ->
  dispatch toolName env name args = invoke env t args.
Proof.
  intros Hres Ht. rewrite dispatch_resolve, Hres.
  destruct t; reflexivity || contradiction.
Qed.

(** The calls of a case whose connection was ensured: those of
    [ensureSqlConnection], then the body of the tool, with the caller's
    arguments, in the world that [ensureSqlConnection] left. *)
Lemma invoke_calls {W : Type} (rt : Runtime W) env t args g w :
  outcome (exec rt (ensureSqlConnection env) g w) = resolved tt ->
  calls (exec rt (invoke env t args) g w)
  = (calls (exec rt (ensureSqlConnection env) g w) ++
     [run_call t args
        (fst (original_run rt t args (world (exec rt (ensureSqlConnection env) g w))))])%list.
Proof.
  intros Hok. rewrite exec_invoke. unfold andThen.
  rewrite Hok. unfold bodyRun.
  now destruct (original_run rt t args _) as [r w2].
Qed.

(** A case entered after a failed [ensureSqlConnection] makes no call
    of its own. *)
Lemma invoke_calls_rejected {W : Type} (rt : Runtime W) env t args g w e :
  outcome (exec rt (ensureSqlConnection env) g w) = rejected e ->
  calls (exec rt (invoke env t args) g w)
  = calls (exec rt (ensureSqlConnection env) g w).
Proof.
  intros Hko. rewrite exec_invoke. unfold andThen. now rewrite Hko.
Qed.

(** The last call of a handled request whose connection was ensured is
    the body of the tool, with the caller's arguments. *)
Lemma invoke_reaches_body {W : Type} (rt : Runtime W) env t args g w :
  outcome (exec rt (ensureSqlConnection env) g w) = resolved tt ->
  exists r,
    last (calls (exec rt (invoke env t args) g w)) = Some (run_call t args r).
Proof.
  intros Hok. rewrite (invoke_calls rt env t args g w Hok).
  eexists. apply last_snoc.
Qed.

(** C10: of all the cases of the call handler, only that of the
    describe-table tool looks at the arguments.  When its tableName
    argument is absent or not a string, the handler is the error
    envelope and nothing else: run against any driver it makes no call
    (no connection, no tool body) and changes no state.  When tableName
    is a string, and for every other tool whatever the arguments, the
    case is the plain invocation of the tool, and the tool receives the
    caller's arguments as they came: once ensureSqlConnection has
    returned, the body of that tool is entered with these very
    arguments, right after the calls of ensureSqlConnection, and nothing
    else is called; when ensureSqlConnection throws, the request makes
    no call beyond those of ensureSqlConnection. *)
Theorem only_describe_table_validated {W : Type} (rt : Runtime W)
    toolName env name args t g w :
  resolve toolName name = Some t ->
  (t = describeTableTool -> is_string (tableNameArgument args) = false ->
     callTool toolName env name args = Ret (errorResult missingTableName) /\
     exec rt (callTool toolName env name args) g w
     = untouched (errorResult missingTableName) g w) /\
  (t = describeTableTool -> is_string (tableNameArgument args) = true ->
     dispatch toolName env name args = invoke env t args) /\
  (t <> describeTableTool ->
     dispatch toolName env name args = invoke env t args) /\
  (t <> describeTableTool \/ is_string (tableNameArgument args) = true ->
     (outcome (exec rt (ensureSqlConnection env) g w) = resolved tt ->
      calls (exec rt (callTool toolName env name args) g w)
      = (calls (exec rt (ensureSqlConnection env) g w) ++
         [run_call t args
            (fst (original_run rt t args
                    (world (exec rt (ensureSqlConnection env) g w))))])%list) /\
     (forall e, outcome (exec rt (ensureSqlConnection env) g w) = rejected e ->
      calls (exec rt (callTool toolName env name args) g w)
      = calls (exec rt (ensureSqlConnection env) g w))).
Proof.
  intros Hres.
  assert (Hbad : t = describeTableTool -> is_string (tableNameArgument args) = false ->
    callTool toolName env name args = Ret (errorResult missingTableName)).
  { intros -> Hbad. unfold callTool.
    now rewrite dispatch_resolve, Hres, invalidTableName_spec, Hbad. }
  assert (Hgood : t <> describeTableTool \/ is_string (tableNameArgument args) = true ->
    dispatch toolName env name args = invoke env t args).
  { intros [Ht|Hstr]; [now apply dispatch_other|].
    rewrite dispatch_resolve, Hres, invalidTableName_spec, Hstr.
    now destruct t. }
  split; [|split; [|split]].
  - intros Ht Hstr. split; [now apply Hbad|]. now rewrite (Hbad Ht Hstr).
  - intros _ Hstr. apply Hgood. now right.
  - intros Ht. apply Hgood. now left.
  - intros Hcase. rewrite callTool_calls, (Hgood Hcase). split.
    + apply invoke_calls.
    + intros e. apply invoke_calls_rejected.
Qed.

(** describe_table with a number for tableName is refused at once;
    with a string, the body of the tool is entered with the arguments
    of the request. *)
Lemma only_describe_table_validated_witness :
  exec Sim.runtime
       (callTool Sim.toolName ∅ "describe_table" (Some [("tableName", VNum 7)]))
       initialGlobals (Sim.fresh 1000)
  = untouched (errorResult missingTableName) initialGlobals (Sim.fresh 1000) /\
  last (calls (exec Sim.runtime
                 (callTool Sim.toolName ∅ "describe_table"
                    (Some [("tableName", VStr "users")]))
                 initialGlobals (Sim.fresh 1000)))
  = Some (run_call describeTableTool (Some [("tableName", VStr "users")])
            (resolved VNull)).
Proof.
  split.
  - apply (only_describe_table_validated Sim.runtime Sim.toolName ∅ "describe_table"
             (Some [("tableName", VNum 7)]) describeTableTool
             initialGlobals (Sim.fresh 1000));
      reflexivity.
  - destruct (only_describe_table_validated Sim.runtime Sim.toolName ∅ "describe_table"
                (Some [("tableName", VStr "users")]) describeTableTool
                initialGlobals (Sim.fresh 1000))
      as (_ & _ & _ & Hbody); [reflexivity|].
    destruct Hbody as [Hbody _]; [right; reflexivity|].
    rewrite Hbody by (vm_compute; reflexivity).
    rewrite last_snoc. reflexivity.
Defined.

(** C1, as the code has it: for a call that resolves to the read tool or
    to the update tool, the handler does not look at the arguments.
    Whatever they are, absent or with a trivial filter, the case is the
    plain invocation of the tool; once ensureSqlConnection has succeeded
    the body of the tool is entered with the caller's arguments
    unchanged.  The handler has no error of its own for a missing
    predicate. *)
Theorem dispatch_checks_no_predicate {W : Type} (rt : Runtime W)
    toolName env name args t g w :
  resolve toolName name = Some t ->
  t = readDataTool \/ t = updateDataTool ->
  dispatch toolName env name args = invoke env t args /\
  (outcome (exec rt (ensureSqlConnection env) g w) = resolved tt ->
   exists r,
     last (calls (exec rt (callTool toolName env name args) g w))
     = Some (run_call t args r)).
Proof.
  intros Hres Ht.
  assert (Hd : dispatch toolName env name args = invoke env t args).
  { apply dispatch_other; [exact Hres|]. destruct Ht as [->| ->]; discriminate. }
  split; [exact Hd|].
  intros Hok. rewrite callTool_calls, Hd.
  now apply invoke_reaches_body.
Qed.

(** update_data with no arguments at all: the update tool is entered. *)
Lemma dispatch_checks_no_predicate_witness :
  exists r,
    last (calls (exec Sim.runtime (callTool Sim.toolName ∅ "update_data" None)
                      initialGlobals (Sim.fresh 1000)))
    = Some (run_call updateDataTool None r).
Proof.
  apply (dispatch_checks_no_predicate Sim.runtime Sim.toolName ∅ "update_data" None
           updateDataTool initialGlobals (Sim.fresh 1000));
    [reflexivity | right; reflexivity | vm_compute; reflexivity].
Defined.

(** C1 as stated fails: a read with no arguments at all, hence with no
    filter predicate, is not refused.  A connection is opened, the body
    of the read tool is entered, and the answer is a success envelope. *)
Lemma read_without_predicate_runs :
  outcome (exec Sim.runtime (callTool Sim.toolName ∅ "read_data" None)
                initialGlobals (Sim.fresh 1000))
  = resolved (success (Some "null")) /\
  connects (calls (exec Sim.runtime (callTool Sim.toolName ∅ "read_data" None)
                        initialGlobals (Sim.fresh 1000))) = 1%nat /\
  last (calls (exec Sim.runtime (callTool Sim.toolName ∅ "read_data" None)
                    initialGlobals (Sim.fresh 1000)))
  = Some (run_call readDataTool None (resolved VNull)).
Proof. vm_compute. repeat split. Qed.

(** ** The read-only flag *)

(** The call handler does not read [READONLY]. *)
Lemma callTool_ignores_READONLY toolName env v name args :
  callTool toolName (<["READONLY" := v]> env) name args
  = callTool toolName env name args.
Proof.
  assert (Hlook : forall k, k <> "READONLY" ->
            (<["READONLY" := v]> env : Env) !! k = env !! k).
  { intros k Hk. now apply lookup_insert_ne. }
  assert (Hauth : authTypeOf (<["READONLY" := v]> env) = authTypeOf env).
  { unfold authTypeOf. now rewrite Hlook. }
  assert (Hbase : baseConfigOf (<["READONLY" := v]> env) = baseConfigOf env).
  { unfold baseConfigOf. now rewrite !Hlook. }
  assert (Hcfg : createSqlConfig (<["READONLY" := v]> env) = createSqlConfig env).
  { unfold createSqlConfig, azureConfig, windowsConfigOf.
    now rewrite Hauth, Hbase, !Hlook. }
  assert (Hens : ensureSqlConnection (<["READONLY" := v]> env) = ensureSqlConnection env).
  { unfold ensureSqlConnection, connectWithoutToken, connectWithToken.
    now rewrite Hauth, Hcfg. }
  unfold callTool, dispatch, run. now rewrite Hens.
Qed.

(** C2 fails on the code: with READONLY set to "true" the list of tools
    holds the three non-mutating ones only, yet a call by the name of
    the insert tool is dispatched as ever.  A connection is opened and
    the body of the insert tool is entered; the answer is a success
    envelope, not "Unknown tool". *)
Theorem readonly_insert_still_runs :
  isReadOnly readOnlyEnv = true /\
  listTools readOnlyEnv = [listTableTool; readDataTool; describeTableTool] /\
  outcome (exec Sim.runtime (callTool Sim.toolName readOnlyEnv "insert_data" None)
                initialGlobals (Sim.fresh 1000))
  = resolved (success (Some "null")) /\
  connects (calls (exec Sim.runtime (callTool Sim.toolName readOnlyEnv "insert_data" None)
                        initialGlobals (Sim.fresh 1000))) = 1%nat /\
  last (calls (exec Sim.runtime (callTool Sim.toolName readOnlyEnv "insert_data" None)
                    initialGlobals (Sim.fresh 1000)))
  = Some (run_call insertDataTool None (resolved VNull)).
Proof. vm_compute. repeat split. Qed.

(** ** Encryption in the windows mode *)

Lemma windows_encrypt env :
  integrated env ->
  exists r, createSqlConfig env = Ret r /\
            encrypt (options (config r)) = cloudEndpoint (env !! "SERVER_NAME").
Proof.
  intros Hmode. unfold createSqlConfig.
  assert (String.eqb (authTypeOf env) "windows" || String.eqb (authTypeOf env) "ntlm" = true)
    as ->.
  { destruct Hmode as [-> | ->]; reflexivity. }
  eexists; split; [reflexivity|]. simpl.
  destruct (truthy (env !! "WINDOWS_USERNAME") && truthy (env !! "WINDOWS_PASSWORD"));
    simpl; unfold cloudEndpoint; destruct (env !! "SERVER_NAME") as [s|];
    try reflexivity; now destruct (includes s _).
Qed.

(** C8 as stated fails in its last part: nothing in the configuration
    overrides the flag. *)
Lemma encrypt_not_overridable : ~ encryptOverridable.
Proof.
  intros (env & env' & r & r' & Hm & Hm' & Hsame & Hr & Hr' & Hdiff).
  destruct (windows_encrypt env Hm) as (r0 & Hr0 & He).
  destruct (windows_encrypt env' Hm') as (r0' & Hr0' & He').
  rewrite Hr in Hr0. rewrite Hr' in Hr0'.
  injection Hr0 as <-. injection Hr0' as <-.
  apply Hdiff. now rewrite He, He', Hsame.
Qed.

(** C8, as the code has it: in the windows (or ntlm) mode the encryption
    flag of the connection descriptor is true exactly when SERVER_NAME
    contains "database.windows.net", and false otherwise (also when
    SERVER_NAME is not set).  The flag depends on nothing else: setting
    any other variable leaves it as it is. *)
Theorem windows_encrypt_follows_server (env : Env) :
  integrated env ->
  exists r,
    createSqlConfig env = Ret r /\
    encrypt (options (config r)) = cloudEndpoint (env !! "SERVER_NAME") /\
    forall k v, k <> "SERVER_NAME" -> k <> "AUTH_TYPE" ->
      exists r', createSqlConfig (<[k := v]> env) = Ret r' /\
                 encrypt (options (config r')) = encrypt (options (config r)).
Proof.
  intros Hmode. destruct (windows_encrypt env Hmode) as (r & Hr & He).
  exists r. split; [exact Hr|]. split; [exact He|].
  intros k v Hk1 Hk2.
  assert (Hmode' : integrated (<[k := v]> env)).
  { unfold integrated, authTypeOf in *. now rewrite lookup_insert_ne. }
  destruct (windows_encrypt _ Hmode') as (r' & Hr' & He').
  exists r'. split; [exact Hr'|].
  now rewrite He', He, lookup_insert_ne.
Qed.

(** For SERVER_NAME=localhost the flag is false. *)
Lemma windows_encrypt_follows_server_witness :
  exists r,
    createSqlConfig readOnlyEnv = Ret r /\
    encrypt (options (config r)) = false.
Proof.
  destruct (windows_encrypt_follows_server readOnlyEnv) as (r & Hr & He & _).
  - left. reflexivity.
  - exists r. split; [exact Hr|]. rewrite He. reflexivity.
Defined.

(** ** Unrecognized authentication modes *)

(** Credential resolution falls back to the azure branch for every
    other value, the unset one included. *)
Lemma createSqlConfig_fallback env :
  recognizedOther (authTypeOf env) = false ->
  createSqlConfig env = azureConfig env.
Proof.
  unfold recognizedOther, createSqlConfig. intros H.
  apply orb_false_iff in H as [H Hsqlserver].
  apply orb_false_iff in H as [H Hsql].
  now rewrite H, Hsql, Hsqlserver.
Qed.

(** The connection manager manages a token only when the value is
    "azure" itself (or unset, or empty): any other value is handled as a
    mode without a token. *)
Lemma ensureSqlConnection_not_azure env :
  authTypeOf env <> "azure" ->
  ensureSqlConnection env =
  (connected <- poolConnected ;;
   if connected then Ret tt else connectWithoutToken env).
Proof.
  intros H. unfold ensureSqlConnection.
  destruct (String.eqb_spec (authTypeOf env) "azure"); [contradiction|reflexivity].
Qed.

(** C9 fails on the code for the connection manager.  With AUTH_TYPE set
    to "kerberos", credential resolution is that of the azure mode: the
    same program as with AUTH_TYPE unset.  The connection manager is
    not: holding a connected pool and a token that expires within the
    refresh skew, it returns without a call, where with AUTH_TYPE unset
    it acquires a new token, closes the pool and connects again. *)
Theorem unrecognized_mode_skips_token_refresh :
  createSqlConfig kerberosEnv = createSqlConfig ∅ /\
  exec Sim.runtime (ensureSqlConnection kerberosEnv)
       (holding 0%nat "tok" 121000) connectedWorld
  = untouched tt (holding 0%nat "tok" 121000) connectedWorld /\
  map isConnect (calls (exec Sim.runtime (ensureSqlConnection ∅)
                             (holding 0%nat "tok" 121000) connectedWorld))
  = [false; false; true].
Proof.
  split; [|split].
  - rewrite !createSqlConfig_fallback by reflexivity. reflexivity.
  - vm_compute. reflexivity.
  - vm_compute. reflexivity.
Qed.

(** ** After a failure *)

(** A lease that is stale stays stale as time passes. *)
Lemma leaseFresh_earlier {W : Type} (rt : Runtime W) g w w' :
  0 <= date_now rt w <= date_now rt w' ->
  leaseFresh rt g w = false -> leaseFresh rt g w' = false.
Proof.
  unfold leaseFresh. intros Hclock.
  destruct (truthy (globalAccessToken g)); [simpl|reflexivity].
  destruct (globalTokenExpiresOn g) as [[x|]|]; try reflexivity.
  unfold Date_gt, new_Date, refreshSkew, maxTime.
  repeat match goal with |- context [Z.leb ?a ?b] => destruct (Z.leb_spec a b) end;
    try reflexivity; try lia.
Qed.

(** After a sequence that failed, other than by the close of the old
    pool, the connection is still not usable. *)
Lemma establish_rejected_unusable {W : Type} (rt : Runtime W) env g w e :
  Driver rt ->
  usable rt env g w = false ->
  forall r, r = exec rt (establish env) g w ->
  outcome r = rejected e ->
  existsb closeFailed (calls r) = false ->
  usable rt env (globals r) (world r) = false.
Proof.
  intros D Hu r. unfold_establish.
  destruct (negb (String.eqb (authTypeOf env) "azure")) eqn:Hazure.
  - run_through. all: intros -> Hout Hclose; simpl in *; try discriminate.
    all: unfold usable, poolAlive in *; rewrite Hazure in *; simpl in *.
    all: same_pool; try reflexivity; settle_pool D; try congruence.
    all: destruct (globalSqlPool g); [settle_pool D; congruence|reflexivity].
  - apply negb_false_iff, String.eqb_eq in Hazure.
    unfold usable in *. rewrite Hazure in *. simpl in Hu. simpl negb. cbv iota.
    run_through. all: intros -> Hout Hclose; simpl in *; try discriminate.
    all: unfold poolAlive in *; simpl in *; same_pool; settle_pool D;
      try reflexivity.
    destruct (globalSqlPool g) as [p|]; [|reflexivity].
    settle_pool D. destruct (pool_connected rt w p); [simpl in *|reflexivity].
    eapply leaseFresh_earlier; [|exact Hu].
    split; [apply (clock_positive _ D)|eapply (getToken_clock _ D); eauto].
Qed.

(** The simulated driver is one. *)
Lemma Sim_driver : Driver Sim.runtime.
Proof.
  split; simpl.
  - intros p w w'. unfold Sim.close.
    destruct (Sim.closing w); intros [= <-]; simpl.
    induction (Sim.connected w) as [|q l IH]; [reflexivity|]. simpl.
    destruct (Nat.eqb_spec q p) as [->|Hne]; simpl; [exact IH|].
    rewrite IH. destruct (Nat.eqb_spec p q); [congruence|reflexivity].
  - intros cfg w e w' p. unfold Sim.connect.
    destruct (Sim.reachable w); now intros [= <- <-].
  - intros scope w r w' p. now intros [= <- <-].
  - intros scope w r w'. intros [= <- <-]. lia.
  - intros w. apply N2Z.is_nonneg.
Qed.

(** C6, as the code has it: ensureSqlConnection makes no retry of its
    own, sql.connect being called at most once, and it returns normally
    from an unusable connection only after that call.  What a call of
    the establishment sequence threw is thrown to the caller, provided
    the catch block of the modes other than "azure" can render it for
    its log line; conversely a failure is what one of the calls threw,
    or the error about the missing SQL credentials, or what that
    rendering raised.  On a failure [globalSqlPool] is what it was.
    When the failure is that of credential resolution or of the connect
    (not that of closing the old pool), the connection is still not
    usable afterwards, so that the next invocation runs the whole
    establishment sequence again: credential resolution, then the
    connect. *)
Theorem failed_establishment_is_retryable {W : Type} (rt : Runtime W) env g w :
  Driver rt ->
  (connects (calls (exec rt (ensureSqlConnection env) g w)) <= 1)%nat /\
  (usable rt env g w = false ->
   outcome (exec rt (ensureSqlConnection env) g w) = resolved tt ->
   connects (calls (exec rt (ensureSqlConnection env) g w)) = 1%nat) /\
  (forall e,
     failedWith (calls (exec rt (ensureSqlConnection env) g w)) e ->
     reportable env e ->
     outcome (exec rt (ensureSqlConnection env) g w) = rejected e) /\
  (forall e,
     outcome (exec rt (ensureSqlConnection env) g w) = rejected e ->
     (failedWith (calls (exec rt (ensureSqlConnection env) g w)) e \/
      e = new_Error sqlCredentialsMissing \/
      exists e0, failedWith (calls (exec rt (ensureSqlConnection env) g w)) e0 /\
                 message_of e0 = rejected e) /\
     globalSqlPool (globals (exec rt (ensureSqlConnection env) g w)) = globalSqlPool g /\
     (existsb closeFailed (calls (exec rt (ensureSqlConnection env) g w)) = false ->
      usable rt env (globals (exec rt (ensureSqlConnection env) g w))
                 (world (exec rt (ensureSqlConnection env) g w)) = false /\
      exec rt (ensureSqlConnection env)
           (globals (exec rt (ensureSqlConnection env) g w))
           (world (exec rt (ensureSqlConnection env) g w))
      = exec rt (establish env)
             (globals (exec rt (ensureSqlConnection env) g w))
             (world (exec rt (ensureSqlConnection env) g w)))).
Proof.
  intros D. split; [|split; [|split]].
  - rewrite (exec_ensureSqlConnection rt env g w).
    destruct (usable rt env g w); [unfold connects; simpl; lia|].
    apply establish_connects.
  - intros Hu. rewrite (exec_ensureSqlConnection rt env g w), Hu.
    apply establish_connects.
  - intros e. apply ensure_failure_surfaces.
  - intros e. rewrite (exec_ensureSqlConnection rt env g w).
    destruct (usable rt env g w) eqn:Hu; [discriminate|].
    intros Hout. split; [now apply establish_rejected_cause|].
    split; [now apply (establish_rejected_pool rt env g w e)|].
    intros Hclose.
    assert (Hafter := establish_rejected_unusable rt env g w e D Hu _ eq_refl Hout Hclose).
    split; [exact Hafter|].
    now rewrite exec_ensureSqlConnection, Hafter.
Qed.

(** The server refuses the connection: the call fails with what the
    connect threw, and the connection is not usable afterwards. *)
Lemma failed_establishment_is_retryable_witness :
  outcome (exec Sim.runtime (ensureSqlConnection ∅) initialGlobals offlineWorld)
  = rejected Sim.connectionError /\
  usable Sim.runtime ∅
    (globals (exec Sim.runtime (ensureSqlConnection ∅) initialGlobals offlineWorld))
    (world (exec Sim.runtime (ensureSqlConnection ∅) initialGlobals offlineWorld))
  = false.
Proof.
  destruct (failed_establishment_is_retryable Sim.runtime ∅ initialGlobals
              offlineWorld Sim_driver)
    as (_ & _ & Hsurface & Hretry).
  assert (Hout : outcome (exec Sim.runtime (ensureSqlConnection ∅)
                               initialGlobals offlineWorld)
                 = rejected Sim.connectionError).
  { apply Hsurface; [|left; reflexivity].
    unfold failedWith. vm_compute. right. left. reflexivity. }
  split; [exact Hout|].
  apply (Hretry _ Hout). vm_compute. reflexivity.
Defined.

(** C6 as stated fails when what fails is the close of the old pool:
    pool 0, held with a stale lease, cannot be closed.  The call fails
    with what the close threw, after the new token and its expiry were
    stored; the connection is then usable as the check has it, and the
    next invocation returns at once, with no token requested and no
    connect attempted. *)
Lemma failed_close_is_not_retried :
  outcome (exec Sim.runtime (ensureSqlConnection ∅)
                (holding 0%nat "old" 91000) stuckPoolWorld)
  = rejected (ErrorObject "ConnectionError" "Cannot close a pool while it is connecting") /\
  usable Sim.runtime ∅
    (globals (exec Sim.runtime (ensureSqlConnection ∅)
                   (holding 0%nat "old" 91000) stuckPoolWorld))
    (world (exec Sim.runtime (ensureSqlConnection ∅)
                 (holding 0%nat "old" 91000) stuckPoolWorld))
  = true /\
  calls (exec Sim.runtime (ensureSqlConnection ∅)
           (globals (exec Sim.runtime (ensureSqlConnection ∅)
                          (holding 0%nat "old" 91000) stuckPoolWorld))
           (world (exec Sim.runtime (ensureSqlConnection ∅)
                        (holding 0%nat "old" 91000) stuckPoolWorld)))
  = [] /\
  outcome (exec Sim.runtime (ensureSqlConnection ∅)
           (globals (exec Sim.runtime (ensureSqlConnection ∅)
                          (holding 0%nat "old" 91000) stuckPoolWorld))
           (world (exec Sim.runtime (ensureSqlConnection ∅)
                        (holding 0%nat "old" 91000) stuckPoolWorld)))
  = resolved tt.
Proof. vm_compute. repeat split. Qed.
(** ** Calls in flight together: who connects *)

Lemma establish_connectsOnce env : connectsOnce (establish env).
Proof.
  unfold_establish.
  repeat match goal with
         | |- context [if ?b then _ else _] => destruct b
         end; simpl.
  all: repeat (simpl; intros;
        try match goal with
            | |- _ /\ _ => split
            | |- context [match ?x with _ => _ end] => destruct x
            end; try reflexivity; try exact I).
Qed.

Lemma connects_app (a b : list Call) :
  connects (a ++ b) = (connects a + connects b)%nat.
Proof.
  unfold connects. now rewrite List.filter_app, List.length_app.
Qed.

Lemma steps_app (a b : list Call) : steps (a ++ b) = (steps a ++ steps b)%list.
Proof.
  induction a as [|c a IH]; [reflexivity|]. simpl.
  destruct (stepOf c); simpl; now rewrite IH.
Qed.

Section WhoConnects.
Context {W : Type} (rt : Runtime W).

Lemma perform_connects {X : Type} (ev : Event X) g w :
  connects (snd (perform rt ev g w)) = if connectEvent ev then 1%nat else 0%nat.
Proof.
  destruct ev; simpl; try reflexivity.
  - now destruct (credential_getToken rt scope w).
  - now destruct (pool_close rt p w).
  - now destruct (sql_connect rt cfg w).
  - now destruct (original_run rt t args w).
Qed.

Lemma connectEvent_suspends {X : Type} (ev : Event X) :
  connectEvent ev = true -> suspends ev = true.
Proof. now destruct ev. Qed.

(** Where a call stands after the event [ev], with respect to where it
    stood before. *)
Lemma perform_standing {X : Type} (ev : Event X) (k : X -> Prog unit) x c :
  connects c = (if connectEvent ev then 1%nat else 0%nat) ->
  (connectsOnce (Vis ev k) ->
   (connectsOnce (k x) /\ connects c = 0%nat) \/
   (connectsNoMore (k x) /\ connects c = 1%nat)) /\
  (connectsNoMore (Vis ev k) -> connectsNoMore (k x) /\ connects c = 0%nat).
Proof.
  simpl. destruct (connectEvent ev); intros ->; split.
  - intros H. right. now split.
  - intros [? _]. discriminate.
  - intros H. left. now split.
  - intros [_ H]. now split.
Qed.

(** The synchronous part of a call makes the connection attempt of the
    call, or none. *)
Lemma advance_connects (p : Prog unit) g w :
  (connectsOnce p ->
   (connectsOnce (fst (fst (fst (advance rt p g w)))) /\
    connects (snd (advance rt p g w)) = 0%nat) \/
   (connectsNoMore (fst (fst (fst (advance rt p g w)))) /\
    connects (snd (advance rt p g w)) = 1%nat)) /\
  (connectsNoMore p ->
   connectsNoMore (fst (fst (fst (advance rt p g w)))) /\
   connects (snd (advance rt p g w)) = 0%nat).
Proof.
  revert g w. induction p as [a|e|X ev k IH]; intros g w;
    [simpl; tauto | simpl; tauto |].
  cbn [advance].
  destruct (isResume ev) eqn:Hr.
  { cbn [fst snd]. split; [left|]; now split. }
  pose proof (perform_connects ev g w) as Hp.
  destruct (perform rt ev g w) as [[[x g1] w1] c1]. cbn [snd] in Hp.
  destruct (perform_standing ev k x c1 Hp) as [Hon Hno].
  destruct (suspends ev) eqn:Hs.
  - cbn [fst snd]. split.
    + intros H. destruct (Hon H) as [[H1 H2]|[H1 H2]]; [left|right];
        (split; [|exact H2]); simpl; auto.
    + intros H. destruct (Hno H) as [H1 H2]. split; [|exact H2]. simpl. auto.
  - specialize (IH x g1 w1).
    destruct (advance rt (k x) g1 w1) as [[[p' g2] w2] c2]. cbn [fst snd] in *.
    assert (Hc1 : connects c1 = 0%nat).
    { rewrite Hp. destruct (connectEvent ev) eqn:Hc; [|reflexivity].
      apply connectEvent_suspends in Hc. congruence. }
    rewrite connects_app, Hc1. destruct IH as [IH1 IH2]. split.
    + intros H. destruct (Hon H) as [[H1 H2]|[H1 H2]]; [|congruence].
      exact (IH1 H1).
    + intros H. destruct (Hno H) as [H1 H2]. exact (IH2 H1).
Qed.

(** A resumed call makes its connection attempt, or has yet to. *)
Lemma resume_connects (p : Prog unit) g w :
  (connectsOnce p ->
   (connectsOnce (fst (fst (fst (resume rt p g w)))) /\
    connects (snd (resume rt p g w)) = 0%nat) \/
   (connectsNoMore (fst (fst (fst (resume rt p g w)))) /\
    connects (snd (resume rt p g w)) = 1%nat)) /\
  (connectsNoMore p ->
   connectsNoMore (fst (fst (fst (resume rt p g w)))) /\
   connects (snd (resume rt p g w)) = 0%nat).
Proof.
  destruct p as [a|e|X ev k]; [simpl; tauto | simpl; tauto |].
  cbn [resume].
  pose proof (perform_connects ev g w) as Hp.
  destruct (perform rt ev g w) as [[[x g1] w1] c1]. cbn [snd] in Hp.
  destruct (perform_standing ev k x c1 Hp) as [Hon Hno].
  pose proof (advance_connects (k x) g1 w1) as [H1 H2].
  destruct (advance rt (k x) g1 w1) as [[[p' g2] w2] c2]. cbn [fst snd] in *.
  rewrite connects_app. split.
  - intros H. destruct (Hon H) as [[Ha Hb]|[Ha Hb]]; rewrite Hb.
    + exact (H1 Ha).
    + right. destruct (H2 Ha) as [Hc Hd]. rewrite Hd. now split.
  - intros H. destruct (Hno H) as [Ha Hb]. rewrite Hb. exact (H2 Ha).
Qed.

End WhoConnects.

Lemma countDone_insert (done : list bool) (i : nat) :
  done !! i = Some false ->
  countDone (<[i := true]> done) = S (countDone done).
Proof.
  revert i; induction done as [|b done IH]; intros [|i] H; simpl in *;
    try discriminate.
  - injection H as ->. reflexivity.
  - rewrite (IH i H). lia.
Qed.

Lemma countDone_le (done : list bool) : (countDone done <= length done)%nat.
Proof. induction done as [|[] done IH]; simpl; lia. Qed.

Section Accounting.
Context {W : Type} (rt : Runtime W).

Lemma step_accounted i (s : System W unit) :
  accounted s -> accounted (step rt i s).
Proof.
  intros (done & HF & Hc). unfold step.
  destruct (tasks s !! i) as [p|] eqn:Hp; [|now exists done].
  destruct (Forall2_lookup_l _ _ _ _ _ HF Hp) as (b & Hb & Hst).
  pose proof (resume_connects rt p (shared s) (outside s)) as [Hon Hno].
  destruct (resume rt p (shared s) (outside s)) as [[[p' g'] w'] c].
  unfold accounted. simpl in *.
  assert (Hkeep : forall b', done !! i = Some b' -> standing p' b' ->
            Forall2 standing (<[i := p']> (tasks s)) done).
  { intros b' Hb' Hp'. rewrite <- (list_insert_id done i b') by exact Hb'.
    now apply Forall2_insert. }
  destruct b; simpl in Hst.
  - destruct (Hno Hst) as [Hp' Hc']. exists done. split; [now apply (Hkeep true)|].
    rewrite connects_app, Hc', Hc. lia.
  - destruct (Hon Hst) as [[Hp' Hc'] | [Hp' Hc']].
    + exists done. split; [now apply (Hkeep false)|].
      rewrite connects_app, Hc', Hc. lia.
    + exists (<[i := true]> done). split; [now apply Forall2_insert|].
      rewrite connects_app, Hc', Hc, (countDone_insert _ _ Hb). lia.
Qed.

Lemma schedule_accounted turns (s : System W unit) :
  accounted s -> accounted (schedule rt turns s).
Proof.
  revert s; induction turns as [|i turns IH]; intros s H; [exact H|].
  simpl. apply IH, step_accounted, H.
Qed.

Lemma step_length i (s : System W unit) :
  length (tasks (step rt i s)) = length (tasks s).
Proof.
  unfold step. destruct (tasks s !! i); [|reflexivity].
  destruct (resume rt _ _ _) as [[[p' g'] w'] c]. simpl. apply length_insert.
Qed.

Lemma schedule_length turns (s : System W unit) :
  length (tasks (schedule rt turns s)) = length (tasks s).
Proof.
  revert s; induction turns as [|i turns IH]; intros s; [reflexivity|].
  simpl. now rewrite IH, step_length.
Qed.

(** A call made when the connection is not usable goes through the
    check and into the establishment sequence. *)
Lemma advance_ensure env g w :
  usable rt env g w = false ->
  advance rt (ensureSqlConnection env) g w = advance rt (establish env) g w.
Proof.
  intros Hu.
  unfold usable, ensureSqlConnection, establish in *.
  unfold tokenStillValid, poolConnected, poolAlive, leaseFresh, trigger in *.
  destruct (negb (String.eqb (authTypeOf env) "azure")).
  - remember (connectWithoutToken env) as est. simpl.
    destruct (globalSqlPool g) as [p|]; simpl; [rewrite Hu; simpl|];
      now destruct (advance rt est g w) as [[[? ?] ?] ?].
  - remember (connectWithToken env) as est. simpl.
    destruct (globalSqlPool g) as [p|]; simpl.
    2: now destruct (advance rt est g w) as [[[? ?] ?] ?].
    destruct (pool_connected rt w p); simpl in *.
    2: now destruct (advance rt est g w) as [[[? ?] ?] ?].
    destruct (truthy (globalAccessToken g)); simpl in *.
    2: now destruct (advance rt est g w) as [[[? ?] ?] ?].
    destruct (globalTokenExpiresOn g); simpl in *.
    2: now destruct (advance rt est g w) as [[[? ?] ?] ?].
    rewrite Hu. now destruct (advance rt est g w) as [[[? ?] ?] ?].
Qed.

(** The establishment sequence runs up to its first suspension: the
    globals are what they were; a token was requested, unless the mode
    is one of user name and password or of integrated credentials; the
    call is suspended with its connection attempt yet to make. *)
Lemma advance_establish env g w :
  forall p' g' w' c,
    advance rt (establish env) g w = (p', g', w', c) ->
    g' = g /\ finished p' = false /\ connectsOnce p' /\
    ((c = [] /\ w' = w) \/
     (exists r, c = [getToken_call tokenScope r] /\
                credential_getToken rt tokenScope w = (r, w'))) /\
    steps c = if recognizedOther (authTypeOf env) then [] else [acquireToken].
Proof.
  unfold recognizedOther. unfold_establish.
  destruct (String.eqb_spec (authTypeOf env) "azure");
    destruct (String.eqb_spec (authTypeOf env) "windows");
    destruct (String.eqb_spec (authTypeOf env) "ntlm");
    destruct (String.eqb_spec (authTypeOf env) "sql");
    destruct (String.eqb_spec (authTypeOf env) "sqlserver");
    try congruence; simpl.
  all: repeat match goal with
         | |- context [if ?b then _ else _] => destruct b
         end; simpl.
  all: try destruct (credential_getToken rt tokenScope w) as [r w1] eqn:Htok.
  all: intros p' g' w' c [= <- <- <- <-].
  all: (split; [reflexivity|]); (split; [reflexivity|]).
  all: split;
    [|split; [first [left; split; reflexivity | right; eexists; split; reflexivity | idtac]
             | try reflexivity]].
  all: repeat (simpl; intros;
        try match goal with
            | |- _ /\ _ => split
            | |- context [match ?x with _ => _ end] => destruct x
            end; try reflexivity; try exact I).
Qed.

(** The check comes to the same after a call was made up to its first
    suspension. *)
Lemma advance_establish_unusable env g w :
  Driver rt ->
  usable rt env g w = false ->
  usable rt env g (snd (fst (advance rt (establish env) g w))) = false.
Proof.
  intros D Hu.
  destruct (advance rt (establish env) g w) as [[[p' g'] w'] c] eqn:Hadv.
  destruct (advance_establish env g w _ _ _ _ Hadv)
    as (_ & _ & _ & [[_ ->]|(r & _ & Htok)] & _); [exact Hu|].
  cbn [fst snd].
  assert (Halive : poolAlive rt g w' = poolAlive rt g w).
  { unfold poolAlive. destruct (globalSqlPool g); [|reflexivity].
    apply (getToken_no_pool _ D _ _ _ _ _ Htok). }
  unfold usable in *. rewrite Halive.
  destruct (negb (String.eqb (authTypeOf env) "azure")); [exact Hu|].
  destruct (poolAlive rt g w); [simpl in *|reflexivity].
  eapply leaseFresh_earlier; [|exact Hu].
  split; [apply (clock_positive _ D)|eapply (getToken_clock _ D); eauto].
Qed.

(** The calls made together when the connection is not usable: each is
    suspended, its connection attempt yet to make. *)
Lemma spawnMany_ensure env n (s : System W unit) :
  Driver rt ->
  usable rt env (shared s) (outside s) = false ->
  exists ps c,
    tasks (spawnMany rt n (ensureSqlConnection env) s) = (tasks s ++ ps)%list /\
    made (spawnMany rt n (ensureSqlConnection env) s) = (made s ++ c)%list /\
    shared (spawnMany rt n (ensureSqlConnection env) s) = shared s /\
    length ps = n /\
    Forall (fun p => finished p = false /\ connectsOnce p) ps /\
    connects c = 0%nat /\
    steps c = if recognizedOther (authTypeOf env) then []
              else replicate n acquireToken.
Proof.
  intros D. revert s; induction n as [|n IH]; intros s Hu; simpl.
  - exists [], []. rewrite !app_nil_r.
    repeat split; auto. now destruct (recognizedOther _).
  - pose proof (advance_establish_unusable env _ _ D Hu) as Hu'.
    pose proof (advance_establish env (shared s) (outside s)) as Hadv.
    assert (Hspawn : spawn rt (ensureSqlConnection env) s
      = let '(p', g, w, c) := advance rt (establish env) (shared s) (outside s) in
        {| tasks := (tasks s ++ [p'])%list; shared := g; outside := w;
           made := (made s ++ c)%list |}).
    { unfold spawn. now rewrite (advance_ensure env _ _ Hu). }
    destruct (advance rt (establish env) (shared s) (outside s))
      as [[[p' g'] w'] c1].
    destruct (Hadv _ _ _ _ eq_refl) as (-> & Hfin & Honce & Hc1 & Hsteps).
    cbn [fst snd] in Hu'. rewrite Hspawn.
    destruct (IH {| tasks := (tasks s ++ [p'])%list; shared := shared s;
                    outside := w'; made := (made s ++ c1)%list |})
      as (ps & c & Ht & Hm & Hs & Hlen & Hall & Hc & Hst); [exact Hu'|].
    simpl in Ht, Hm, Hs.
    exists (p' :: ps), (c1 ++ c)%list.
    rewrite Ht, Hm, Hs, <- !app_assoc. simpl.
    repeat split; auto.
    + rewrite connects_app, Hc.
      destruct Hc1 as [[-> _]|(r & -> & _)]; reflexivity.
    + rewrite steps_app, Hsteps, Hst.
      now destruct (recognizedOther _).
Qed.

End Accounting.

Lemma countDone_replicate n : countDone (replicate n false) = 0%nat.
Proof. induction n; simpl; auto. Qed.

Lemma all_returned_done (l : list (Prog unit)) (done : list bool) :
  Forall2 standing l done ->
  Forall (fun p => p = Ret tt) l ->
  countDone done = length l.
Proof.
  induction 1 as [|p b l done Hst HF IH]; intros Hall; [reflexivity|].
  apply Forall_cons in Hall as [-> Hall]. simpl.
  destruct b; [|destruct Hst]. now rewrite IH.
Qed.

(** C3, as the code has it: ensureSqlConnection calls made together
    while the connection is not usable are not serialized.  Each of the
    n calls goes through the validity check on its own and is suspended
    inside its own establishment sequence, with its own call of
    sql.connect yet to make; unless the mode is one that needs no token
    (windows, ntlm, sql, sqlserver), each has by then requested a token
    of its own.  Whatever the order in which the calls are resumed,
    sql.connect is called at most n times, and when all n calls have
    returned, exactly n times: once per call.  The driver is assumed
    to be one where a token request connects no pool and the clock does
    not go back. *)
Theorem concurrent_calls_each_connect {W : Type} (rt : Runtime W)
    env g w (n : nat) (turns : list nat) :
  Driver rt ->
  usable rt env g w = false ->
  length (tasks (spawnMany rt n (ensureSqlConnection env) (idle g w))) = n /\
  Forall (fun p => finished p = false /\ connectsOnce p)
    (tasks (spawnMany rt n (ensureSqlConnection env) (idle g w))) /\
  shared (spawnMany rt n (ensureSqlConnection env) (idle g w)) = g /\
  connects (made (spawnMany rt n (ensureSqlConnection env) (idle g w))) = 0%nat /\
  steps (made (spawnMany rt n (ensureSqlConnection env) (idle g w)))
  = (if recognizedOther (authTypeOf env) then [] else replicate n acquireToken) /\
  (connects (made (schedule rt turns
      (spawnMany rt n (ensureSqlConnection env) (idle g w)))) <= n)%nat /\
  (Forall (fun p => p = Ret tt)
     (tasks (schedule rt turns
        (spawnMany rt n (ensureSqlConnection env) (idle g w)))) ->
   connects (made (schedule rt turns
      (spawnMany rt n (ensureSqlConnection env) (idle g w)))) = n).
Proof.
  intros D Hu.
  destruct (spawnMany_ensure rt env n (idle g w) D Hu)
    as (ps & c & Ht & Hm & Hs & Hlen & Hall & Hc & Hst).
  set (s0 := spawnMany rt n (ensureSqlConnection env) (idle g w)) in *.
  simpl in Ht, Hm, Hs.
  split; [now rewrite Ht|]. split; [now rewrite Ht|].
  split; [exact Hs|]. split; [now rewrite Hm|]. split; [now rewrite Hm|].
  assert (Hacc : accounted s0).
  { exists (replicate n false). rewrite Ht, Hm, Hc, countDone_replicate.
    split; [|reflexivity]. rewrite <- Hlen.
    clear -Hall. induction Hall as [|p ps [_ Hp] _ IH]; simpl; constructor; auto. }
  destruct (schedule_accounted rt turns s0 Hacc) as (done & HF & Hdone).
  pose proof (schedule_length rt turns s0) as Hl.
  rewrite Ht, Hlen in Hl.
  split.
  - rewrite Hdone. pose proof (countDone_le done) as Hle.
    rewrite <- (Forall2_length _ _ _ HF), Hl in Hle. exact Hle.
  - intros Hret. now rewrite Hdone, (all_returned_done _ _ HF Hret).
Qed.

(** Two calls made together and resumed in turn: sql.connect is called
    twice. *)
Lemma concurrent_calls_each_connect_witness :
  connects (made (schedule Sim.runtime [0; 1; 0; 1; 0; 1]%nat
      (spawnMany Sim.runtime 2 (ensureSqlConnection ∅)
         (idle initialGlobals (Sim.fresh 1000))))) = 2%nat.
Proof.
  apply (concurrent_calls_each_connect Sim.runtime ∅ initialGlobals
           (Sim.fresh 1000) 2 [0; 1; 0; 1; 0; 1]%nat Sim_driver).
  - reflexivity.
  - vm_compute. repeat constructor.
Defined.

(** C3 as stated fails: two calls made together when there is no
    connection, resumed in turn, both request a token and both call
    sql.connect.  With the simulated driver, which makes a pool for each
    connect, two pools are made; the second replaces the first in
    [globalSqlPool], and the first stays connected. *)
Lemma two_calls_two_connects :
  tasks (schedule Sim.runtime [0; 1; 0; 1; 0; 1]%nat
      (spawnMany Sim.runtime 2 (ensureSqlConnection ∅)
         (idle initialGlobals (Sim.fresh 1000)))) = [Ret tt; Ret tt] /\
  map isConnect (made (schedule Sim.runtime [0; 1; 0; 1; 0; 1]%nat
      (spawnMany Sim.runtime 2 (ensureSqlConnection ∅)
         (idle initialGlobals (Sim.fresh 1000)))))
  = [false; false; true; true] /\
  globalSqlPool (shared (schedule Sim.runtime [0; 1; 0; 1; 0; 1]%nat
      (spawnMany Sim.runtime 2 (ensureSqlConnection ∅)
         (idle initialGlobals (Sim.fresh 1000))))) = Some 1%nat /\
  Sim.connected (outside (schedule Sim.runtime [0; 1; 0; 1; 0; 1]%nat
      (spawnMany Sim.runtime 2 (ensureSqlConnection ∅)
         (idle initialGlobals (Sim.fresh 1000))))) = [1; 0]%nat.
Proof. vm_compute. repeat split. Qed.
(** * Further properties of the handlers and of the connection manager *)

(** ** Names that match no case *)

(** X1: the call handler answers "Unknown tool: <name>" exactly for the
    names that are equal to no tool's name.  For such a name it makes no
    call and changes no state; for a name that stands for a tool the
    answer is never that one. *)
Theorem unknown_tool_exactly {W : Type} (rt : Runtime W) toolName env name args g w :
  (resolve toolName name = None ->
   exec rt (callTool toolName env name args) g w = untouched (unknownTool name) g w) /\
  (outcome (exec rt (callTool toolName env name args) g w) = resolved (unknownTool name) ->
   resolve toolName name = None).
Proof.
  split.
  - intros Hres. unfold callTool. now rewrite dispatch_resolve, Hres.
  - rewrite exec_callTool, dispatch_resolve.
    destruct (resolve toolName name) as [t|]; [|reflexivity].
    intros Hout. exfalso.
    assert (Hinv : forall t',
      outcome (orCatch (exec rt (invoke env t' args) g w)
                 (fun e g' w' => {| outcome := rescue e; globals := g';
                                    world := w'; calls := [] |}))
      <> resolved (unknownTool name)).
    { intros t' H. unfold orCatch in H.
      destruct (invoke_responds rt env t' args g w) as (H1 & _ & _).
      destruct (exec rt (invoke env t' args) g w) as [[resp|e] g1 w1 c1];
        simpl in *.
      - destruct (H1 resp eq_refl) as (v & s & _ & _ & ->). discriminate H.
      - unfold rescue in H. destruct (template_of e); discriminate H. }
    destruct t; try (now apply (Hinv _ Hout)).
    destruct (invalidTableName args); [discriminate Hout|now apply (Hinv _ Hout)].
Qed.

(** ** The connection comes first *)

(** X2: whenever the body of a tool is entered while a request is
    handled, it is the tool the name stands for, with the arguments of
    the request; ensureSqlConnection has returned normally before, and
    the entry is the last call of the request, after those of
    ensureSqlConnection.  No body is entered after a failed
    ensureSqlConnection, and none twice. *)
Theorem body_after_connection {W : Type} (rt : Runtime W)
    toolName env name args g w t a r :
  In (run_call t a r) (calls (exec rt (callTool toolName env name args) g w)) ->
  resolve toolName name = Some t /\ a = args /\
  outcome (exec rt (ensureSqlConnection env) g w) = resolved tt /\
  calls (exec rt (callTool toolName env name args) g w)
  = (calls (exec rt (ensureSqlConnection env) g w) ++ [run_call t args r])%list.
Proof.
  rewrite callTool_calls, dispatch_resolve.
  assert (Hinv : forall t',
    In (run_call t a r) (calls (exec rt (invoke env t' args) g w)) ->
    t' = t /\ a = args /\
    outcome (exec rt (ensureSqlConnection env) g w) = resolved tt /\
    calls (exec rt (invoke env t' args) g w)
    = (calls (exec rt (ensureSqlConnection env) g w) ++ [run_call t args r])%list).
  { intros t'. rewrite exec_invoke. unfold andThen.
    pose proof (ensure_no_body rt env g w) as Hbody.
    destruct (exec rt (ensureSqlConnection env) g w) as [[[]|e0] g1 w1 c1];
      simpl in *.
    - unfold bodyRun. destruct (original_run rt t' args w1) as [r' w2]; simpl.
      intros Hin. apply in_app_iff in Hin as [Hin|[[= -> -> ->]|[]]].
      + exfalso. assert (existsb isBody c1 = true) as Ht; [|congruence].
        apply existsb_exists. eexists; split; [exact Hin|reflexivity].
      + now repeat split.
    - intros Hin. exfalso.
      assert (existsb isBody c1 = true) as Ht; [|congruence].
      apply existsb_exists. eexists; split; [exact Hin|reflexivity]. }
  destruct (resolve toolName name) as [t'|]; [|intros []].
  assert (Hdone : In (run_call t a r) (calls (exec rt (invoke env t' args) g w)) ->
    Some t' = Some t /\ a = args /\
    outcome (exec rt (ensureSqlConnection env) g w) = resolved tt /\
    calls (exec rt (invoke env t' args) g w)
    = (calls (exec rt (ensureSqlConnection env) g w) ++ [run_call t args r])%list).
  { intros Hin. destruct (Hinv t' Hin) as (-> & H). now split. }
  destruct t'; try exact Hdone.
  destruct (invalidTableName args); [intros []|exact Hdone].
Qed.

(** A read request in a world where everything works. *)
Lemma body_after_connection_witness :
  outcome (exec Sim.runtime (ensureSqlConnection ∅) initialGlobals (Sim.fresh 1000))
  = resolved tt.
Proof.
  apply (body_after_connection Sim.runtime Sim.toolName ∅ "read_data" None
           initialGlobals (Sim.fresh 1000) readDataTool None (resolved VNull)).
  vm_compute. repeat (first [left; reflexivity | right]).
Defined.

(** ** The sql mode *)

(** X3: in the sql mode, with SQL_USERNAME or SQL_PASSWORD unset or
    empty and no connected pool, ensureSqlConnection fails with the
    error about the missing credentials before anything leaves the
    process: no token is requested, no pool closed, no connect
    attempted.  It writes one line to the console and changes neither
    the globals nor the world. *)
Theorem sql_mode_fails_before_network {W : Type} (rt : Runtime W) env g w :
  sqlMode env ->
  truthy (env !! "SQL_USERNAME") && truthy (env !! "SQL_PASSWORD") = false ->
  poolAlive rt g w = false ->
  exec rt (ensureSqlConnection env) g w
  = {| outcome := rejected (new_Error sqlCredentialsMissing);
       globals := g; world := w;
       calls := [console_call error
                   [authTypeOf env +:+ " authentication failed:";
                    sqlCredentialsMissing]] |}.
Proof.
  intros Hmode Hcred Hpool.
  assert (Hcfg : createSqlConfig env = Throw (new_Error sqlCredentialsMissing)).
  { unfold createSqlConfig.
    apply andb_false_iff in Hcred.
    destruct Hmode as [-> | ->]; simpl;
      destruct Hcred as [-> | ->]; simpl; now rewrite ?orb_true_r. }
  rewrite exec_ensureSqlConnection. unfold usable, establish, connectWithoutToken.
  rewrite Hcfg.
  destruct Hmode as [Hm | Hm]; rewrite Hm in *; simpl; now rewrite Hpool.
Qed.

(** The sql mode with nothing else set, and no pool yet. *)
Lemma sql_mode_fails_before_network_witness :
  connects (calls (exec Sim.runtime (ensureSqlConnection (<["AUTH_TYPE" := "SQL"]> ∅))
                        initialGlobals (Sim.fresh 1000))) = 0%nat.
Proof.
  rewrite (sql_mode_fails_before_network Sim.runtime (<["AUTH_TYPE" := "SQL"]> ∅)
             initialGlobals (Sim.fresh 1000));
    [reflexivity | left; reflexivity | reflexivity | reflexivity].
Defined.

(** ** What an establishment leaves *)

(** X4: when ensureSqlConnection had to establish a connection and
    returned normally, the last call that left the process is a connect
    that succeeded, [globalSqlPool] is the pool it returned, and the
    configuration it connected with has the server, the database and
    the timeout of the environment, whatever the mode. *)
Theorem established_pool_is_installed {W : Type} (rt : Runtime W) env g w :
  usable rt env g w = false ->
  outcome (exec rt (ensureSqlConnection env) g w) = resolved tt ->
  exists cfg p,
    last (List.filter leavesProcess (calls (exec rt (ensureSqlConnection env) g w)))
    = Some (connect_call cfg (resolved p)) /\
    globalSqlPool (globals (exec rt (ensureSqlConnection env) g w)) = Some p /\
    server cfg = env !! "SERVER_NAME" /\
    database cfg = env !! "DATABASE_NAME" /\
    connectionTimeout cfg = connectionTimeout (baseConfigOf env).
Proof.
  intros Hu. rewrite exec_ensureSqlConnection, Hu.
  remember (connectionTimeout (baseConfigOf env)) as timeout eqn:Htimeout.
  unfold_establish. run_through.
  all: intros Hout; try discriminate Hout.
  all: eexists _, _; repeat split; subst timeout; reflexivity.
Qed.

(** The first call in a world where everything works. *)
Lemma established_pool_is_installed_witness :
  exists cfg p,
    globalSqlPool (globals (exec Sim.runtime (ensureSqlConnection ∅)
                                 initialGlobals (Sim.fresh 1000))) = Some p /\
    server cfg = (∅ : Env) !! "SERVER_NAME".
Proof.
  destruct (established_pool_is_installed Sim.runtime ∅ initialGlobals (Sim.fresh 1000))
    as (cfg & p & _ & Hp & Hs & _); [reflexivity | reflexivity |].
  now exists cfg, p.
Defined.

(** What the token globals hold once the provider has answered. *)
Lemma token_recorded {W : Type} (rt : Runtime W) env g w answer w1 :
  authTypeOf env = "azure" ->
  credential_getToken rt tokenScope w = (resolved answer, w1) ->
  globalAccessToken (globals (exec rt (connectWithToken env) g w))
  = or_null (Azure.token <$> answer) /\
  globalTokenExpiresOn (globals (exec rt (connectWithToken env) g w))
  = Some (expiryOf answer (date_now rt w1)).
Proof.
  intros Hazure Htok.
  unfold connectWithToken, createSqlConfig, azureConfig, closeOldPool,
    poolConnected, await, call, trigger.
  unfold expiryOf. rewrite Hazure. simpl. rewrite Htok.
  destruct answer as [a|]; simpl.
  - destruct (Azure.expiresOnTimestamp a =? 0); run_through.
    all: split; reflexivity.
  - run_through. all: split; reflexivity.
Qed.

(** X5: in the azure mode, once the provider has answered, the token
    globals are set before the old pool is closed and the new one
    opened, and stay so whether or not the connect then succeeds:
    [globalAccessToken] is the token (null when it is empty or there is
    none) and [globalTokenExpiresOn] the expiry the provider gave, or 30
    minutes after the answer when it gave none. *)
Theorem token_is_recorded_first {W : Type} (rt : Runtime W) env g w answer w1 :
  authTypeOf env = "azure" ->
  usable rt env g w = false ->
  credential_getToken rt tokenScope w = (resolved answer, w1) ->
  globalAccessToken (globals (exec rt (ensureSqlConnection env) g w))
  = or_null (Azure.token <$> answer) /\
  globalTokenExpiresOn (globals (exec rt (ensureSqlConnection env) g w))
  = Some (expiryOf answer (date_now rt w1)).
Proof.
  intros Hazure Hu Htok. rewrite exec_ensureSqlConnection, Hu.
  unfold establish. rewrite Hazure. simpl.
  now apply token_recorded.
Qed.

(** The provider gives no expiry and the server is down: the token is
    kept all the same, for 30 minutes. *)
Lemma token_is_recorded_first_witness :
  globalTokenExpiresOn
    (globals (exec Sim.runtime (ensureSqlConnection ∅) initialGlobals noExpiryWorld))
  = Some (Some 1801000).
Proof.
  apply (token_is_recorded_first Sim.runtime ∅ initialGlobals noExpiryWorld
           (Some {| Azure.token := "tok"; Azure.expiresOnTimestamp := 0 |})
           noExpiryWorld);
    reflexivity.
Defined.

(** X6: in a mode other than "azure", ensureSqlConnection never assigns
    the token globals: [globalAccessToken] and [globalTokenExpiresOn]
    are after the call what they were before, also when the mode is an
    unrecognized one for which a token was acquired. *)
Theorem no_token_kept_outside_azure {W : Type} (rt : Runtime W) env g w :
  authTypeOf env <> "azure" ->
  globalAccessToken (globals (exec rt (ensureSqlConnection env) g w))
  = globalAccessToken g /\
  globalTokenExpiresOn (globals (exec rt (ensureSqlConnection env) g w))
  = globalTokenExpiresOn g.
Proof.
  intros Hmode. rewrite exec_ensureSqlConnection.
  destruct (usable rt env g w); [now split|].
  unfold establish.
  destruct (String.eqb_spec (authTypeOf env) "azure") as [|_]; [contradiction|].
  simpl. unfold connectWithoutToken, createSqlConfig, azureConfig, closeOldPool,
    poolConnected, await, call, trigger.
  run_through. all: split; reflexivity.
Qed.

(** A token is acquired for the mode "kerberos", and not kept. *)
Lemma no_token_kept_outside_azure_witness :
  map failure (calls (exec Sim.runtime (ensureSqlConnection kerberosEnv)
                           initialGlobals (Sim.fresh 1000))) <> [] /\
  globalAccessToken (globals (exec Sim.runtime (ensureSqlConnection kerberosEnv)
                                   initialGlobals (Sim.fresh 1000))) = None.
Proof.
  split; [vm_compute; discriminate|].
  apply (no_token_kept_outside_azure Sim.runtime kerberosEnv initialGlobals
           (Sim.fresh 1000)).
  vm_compute. discriminate.
Defined.

(** ** The order of the calls *)

(** X7: the calls of ensureSqlConnection that leave the process come in
    one order, each at most once: the token request, then the close of
    the old pool, then the connect.  No pool is closed after the
    connect, and no token requested after a close. *)
Theorem establishment_steps_in_order {W : Type} (rt : Runtime W) env g w :
  sublist (steps (calls (exec rt (ensureSqlConnection env) g w)))
          [acquireToken; closeOld; openNew].
Proof.
  rewrite exec_ensureSqlConnection.
  destruct (usable rt env g w); [simpl; repeat constructor|].
  unfold_establish. run_through.
  all: repeat constructor.
Qed.

Lemma ensure_closesWhatItSees env : closesWhatItSees unseen (ensureSqlConnection env).
Proof.
  unfold ensureSqlConnection, tokenStillValid. unfold_establish.
  repeat match goal with
         | |- context [if ?b then _ else _] => destruct b
         end; simpl.
  all: repeat (simpl; intros;
        try match goal with
            | |- _ /\ _ => split
            | |- context [match ?x with _ => _ end] => destruct x eqn:?
            end; try reflexivity; try exact I).
Qed.

Section PoolsClosed.
Context {W : Type} (rt : Runtime W).

Lemma perform_sight {X : Type} (ev : Event X) s g w :
  agrees s g ->
  closeAllowed ev s ->
  (suspends ev = false ->
   agrees (sightAfter ev s (fst (fst (fst (perform rt ev g w)))))
          (snd (fst (fst (perform rt ev g w)))) /\
   (sightAfter ev s (fst (fst (fst (perform rt ev g w)))) <> assigned ->
    s <> assigned /\
    globalSqlPool (snd (fst (fst (perform rt ev g w)))) = globalSqlPool g) /\
   forall q r, ~ In (close_call q r) (snd (perform rt ev g w))) /\
  (suspends ev = true ->
   (forall x, sightAfter ev s x = unseen) /\
   snd (fst (fst (perform rt ev g w))) = g /\
   forall q r, In (close_call q r) (snd (perform rt ev g w)) ->
     s <> assigned /\ globalSqlPool g = Some q).
Proof.
  intros Hag Hal. unfold agrees in *.
  destruct ev; simpl in *;
    try destruct (credential_getToken rt scope w);
    try destruct (pool_close rt p w);
    try destruct (sql_connect rt cfg w);
    try destruct (original_run rt t args w); simpl;
    (split; [intros Hs|intros Hs]); try discriminate Hs.
  all: try (split; [|split]); try reflexivity; try tauto.
  all: try (intros x [= <-]; reflexivity).
  all: try (destruct s; simpl; intros; try congruence; split; congruence).
  all: try (intros; intuition congruence).
  intros q r [[= <- <-]|[]]. split; [congruence|]. now apply Hag.
Qed.

Lemma isResume_sight {X : Type} (ev : Event X) s s' x :
  isResume ev = true -> closeAllowed ev s /\ sightAfter ev s' x = sightAfter ev s x.
Proof. now destruct ev. Qed.

(** The synchronous part of a call closes no pool but the one that
    [globalSqlPool] holds. *)
Lemma advance_sight (p : Prog unit) s g w :
  closesWhatItSees s p ->
  agrees s g ->
  closesWhatItSees unseen (fst (fst (fst (advance rt p g w)))) /\
  forall q r, In (close_call q r) (snd (advance rt p g w)) ->
    s <> assigned /\ globalSqlPool g = Some q.
Proof.
  revert s g w. induction p as [a|e|X ev k IH]; intros s g w Hp Hag;
    [simpl; tauto | simpl; tauto |].
  cbn [advance]. destruct Hp as [Hal Hk].
  destruct (isResume ev) eqn:Hr.
  { cbn [fst snd]. split; [|intros q r []]. simpl. split.
    - apply (isResume_sight ev unseen s (fst (fst (fst (perform rt ev g w)))) Hr).
    - intros x. destruct (isResume_sight ev unseen s x Hr) as [_ <-]. apply Hk. }
  destruct (perform_sight ev s g w Hag Hal) as [Hsync Hsusp].
  destruct (perform rt ev g w) as [[[x g1] w1] c1]. cbn [fst snd] in *.
  destruct (suspends ev).
  - destruct (Hsusp eq_refl) as (Hun & -> & Hc). cbn [fst snd].
    split; [|exact Hc]. simpl. split; [exact I|]. intros _.
    rewrite <- (Hun x). apply Hk.
  - destruct (Hsync eq_refl) as (Hag' & Hkeep & Hc).
    destruct (IH x _ g1 w1 (Hk x) Hag') as [IH1 IH2].
    destruct (advance rt (k x) g1 w1) as [[[p' g2] w2] c2]. cbn [fst snd] in *.
    split; [exact IH1|]. intros q r Hin.
    apply in_app_iff in Hin as [Hin|Hin]; [now apply Hc in Hin|].
    destruct (IH2 q r Hin) as [Hna Hq].
    destruct (Hkeep Hna) as [Hs Hg]. split; [exact Hs|congruence].
Qed.

(** So does a call that is resumed. *)
Lemma resume_sight (p : Prog unit) g w :
  closesWhatItSees unseen p ->
  closesWhatItSees unseen (fst (fst (fst (resume rt p g w)))) /\
  forall q r, In (close_call q r) (snd (resume rt p g w)) ->
    globalSqlPool g = Some q.
Proof.
  destruct p as [a|e|X ev k]; [simpl; tauto | simpl; tauto |].
  intros [Hal Hk]. cbn [resume].
  assert (Hag : agrees unseen g) by (intros x; discriminate).
  destruct (perform_sight ev unseen g w Hag Hal) as [Hsync Hsusp].
  destruct (perform rt ev g w) as [[[x g1] w1] c1]. cbn [fst snd] in *.
  assert (Hnext : agrees (sightAfter ev unseen x) g1 /\
                  (sightAfter ev unseen x <> assigned ->
                   globalSqlPool g1 = globalSqlPool g) /\
                  forall q r, In (close_call q r) c1 -> globalSqlPool g = Some q).
  { destruct (suspends ev).
    - destruct (Hsusp eq_refl) as (Hun & -> & Hc). rewrite Hun.
      split; [exact Hag|]. split; [reflexivity|]. intros q r Hin.
      now apply Hc in Hin.
    - destruct (Hsync eq_refl) as (Hag' & Hkeep & Hc).
      split; [exact Hag'|]. split; [intros H; now apply Hkeep|].
      intros q r Hin. now apply Hc in Hin. }
  destruct Hnext as (Hag' & Hkeep & Hc).
  destruct (advance_sight (k x) _ g1 w1 (Hk x) Hag') as [H1 H2].
  destruct (advance rt (k x) g1 w1) as [[[p' g2] w2] c2]. cbn [fst snd] in *.
  split; [exact H1|]. intros q r Hin.
  apply in_app_iff in Hin as [Hin|Hin]; [now apply (Hc q r)|].
  destruct (H2 q r Hin) as [Hna Hq]. rewrite <- (Hkeep Hna). exact Hq.
Qed.

Lemma spawnMany_sight env n (s : System W unit) :
  Forall (closesWhatItSees unseen) (tasks s) ->
  Forall (closesWhatItSees unseen) (tasks (spawnMany rt n (ensureSqlConnection env) s)).
Proof.
  revert s; induction n as [|n IH]; intros s Hs; [exact Hs|].
  simpl. apply IH. unfold spawn.
  pose proof (advance_sight (ensureSqlConnection env) unseen (shared s) (outside s)
                (ensure_closesWhatItSees env)) as [Hp _]; [intros x; discriminate|].
  destruct (advance rt (ensureSqlConnection env) (shared s) (outside s))
    as [[[p' g'] w'] c]. simpl in *.
  apply Forall_app. split; [exact Hs|]. now constructor.
Qed.

Lemma step_sight i (s : System W unit) :
  Forall (closesWhatItSees unseen) (tasks s) ->
  Forall (closesWhatItSees unseen) (tasks (step rt i s)) /\
  forall c q r, made (step rt i s) = (made s ++ c)%list ->
    In (close_call q r) c -> globalSqlPool (shared s) = Some q.
Proof.
  intros Hs. unfold step. destruct (tasks s !! i) as [p|] eqn:Hp.
  - pose proof (resume_sight p (shared s) (outside s)) as [H1 H2].
    { eapply Forall_lookup_1; eauto. }
    destruct (resume rt p (shared s) (outside s)) as [[[p' g'] w'] c'].
    simpl in *. split.
    + apply Forall_insert; assumption.
    + intros c q r Heq. apply app_inv_head in Heq as <-. apply H2.
  - split; [exact Hs|]. intros c q r Heq.
    rewrite <- (app_nil_r (made s)) in Heq at 1.
    apply app_inv_head in Heq as <-. intros [].
Qed.

Lemma schedule_sight turns (s : System W unit) :
  Forall (closesWhatItSees unseen) (tasks s) ->
  Forall (closesWhatItSees unseen) (tasks (schedule rt turns s)).
Proof.
  revert s; induction turns as [|i turns IH]; intros s Hs; [exact Hs|].
  simpl. apply IH, step_sight, Hs.
Qed.

End PoolsClosed.

(** X8: whenever ensureSqlConnection closes a pool, it is the pool that
    [globalSqlPool] holds at that moment.  For a call with no other call
    in flight this is the pool held when it was called.  For calls in
    flight together it is the pool held when the call was last resumed,
    which another call may have installed since the call was made:
    whatever the calls made together and the order they were resumed
    in, a pool closed in a turn is the one held when the turn began. *)
Theorem only_held_pool_is_closed {W : Type} (rt : Runtime W) env g w :
  (forall p r,
     In (close_call p r) (calls (exec rt (ensureSqlConnection env) g w)) ->
     globalSqlPool g = Some p) /\
  (forall (n : nat) (turns : list nat) (i : nat) c q r,
     made (step rt i (schedule rt turns
             (spawnMany rt n (ensureSqlConnection env) (idle g w))))
     = (made (schedule rt turns
                (spawnMany rt n (ensureSqlConnection env) (idle g w))) ++ c)%list ->
     In (close_call q r) c ->
     globalSqlPool (shared (schedule rt turns
        (spawnMany rt n (ensureSqlConnection env) (idle g w)))) = Some q).
Proof.
  split.
  - intros p r. rewrite exec_ensureSqlConnection.
    destruct (usable rt env g w); [intros []|].
    unfold_establish. run_through.
    all: intros Hin; simpl in Hin.
    all: repeat (destruct Hin as [Hin|Hin]; [try discriminate Hin|]);
      try contradiction.
    all: injection Hin as <- _; congruence.
  - intros n turns i c q r.
    apply (step_sight rt i). apply schedule_sight, spawnMany_sight.
    constructor.
Qed.

(** Two calls made together when there is no pool; the second is
    resumed until it has connected and returned, then the first: it
    finds pool 0 in [globalSqlPool], and closes it. *)
Lemma only_held_pool_is_closed_witness :
  globalSqlPool (shared (schedule Sim.runtime [1; 1; 1; 0]%nat
     (spawnMany Sim.runtime 2 (ensureSqlConnection ∅)
        (idle initialGlobals (Sim.fresh 1000))))) = Some 0%nat.
Proof.
  apply (proj2 (only_held_pool_is_closed Sim.runtime ∅ initialGlobals (Sim.fresh 1000))
           2%nat [1; 1; 1; 0]%nat 0%nat [close_call 0%nat (resolved tt)]
           0%nat (resolved tt)).
  - vm_compute. reflexivity.
  - left. reflexivity.
Defined.
(** ** The windows mode *)

(** X9: in the windows (or ntlm) mode no call is made to resolve the
    credentials, and whatever TRUST_SERVER_CERTIFICATE says the server
    certificate is trusted.  NTLM authentication with explicit
    credentials is configured exactly when WINDOWS_USERNAME and
    WINDOWS_PASSWORD are both set and not empty, with an empty domain
    when WINDOWS_DOMAIN is not set; with only one of the two, the
    credentials given are dropped and the ambient identity is used. *)
Theorem windows_credentials (env : Env) :
  integrated env ->
  exists r,
    createSqlConfig env = Ret r /\
    trustServerCertificate (options (config r)) = true /\
    enableArithAbort (options (config r)) = Some true /\
    token r = None /\ user (config r) = None /\ password (config r) = None /\
    authentication (config r)
    = if truthy (env !! "WINDOWS_USERNAME") && truthy (env !! "WINDOWS_PASSWORD")
      then Some (ntlm (or_else (env !! "WINDOWS_DOMAIN") "")
                      (default "" (env !! "WINDOWS_USERNAME"))
                      (default "" (env !! "WINDOWS_PASSWORD")))
      else None.
Proof.
  intros Hmode. unfold createSqlConfig.
  assert (String.eqb (authTypeOf env) "windows" || String.eqb (authTypeOf env) "ntlm" = true)
    as ->.
  { destruct Hmode as [-> | ->]; reflexivity. }
  eexists; split; [reflexivity|].
  destruct (truthy (env !! "WINDOWS_USERNAME") && truthy (env !! "WINDOWS_PASSWORD"));
    repeat split.
Qed.

(** A user name without a password: integrated security. *)
Lemma windows_credentials_witness :
  exists r,
    createSqlConfig (<["WINDOWS_USERNAME" := "alice"]> readOnlyEnv) = Ret r /\
    authentication (config r) = None.
Proof.
  destruct (windows_credentials (<["WINDOWS_USERNAME" := "alice"]> readOnlyEnv))
    as (r & Hr & _ & _ & _ & _ & _ & Ha); [left; reflexivity|].
  exists r. split; [exact Hr|]. rewrite Ha. reflexivity.
Defined.

(** ** The letter case of AUTH_TYPE *)

Lemma lower_ascii_idempotent c : lower_ascii (lower_ascii c) = lower_ascii c.
Proof.
  destruct c as [[] [] [] [] [] [] [] []]; reflexivity.
Qed.

Lemma toLowerCase_idempotent s : toLowerCase (toLowerCase s) = toLowerCase s.
Proof.
  induction s as [|c s IH]; [reflexivity|].
  simpl. now rewrite lower_ascii_idempotent, IH.
Qed.

(** The program reads the environment through the mode and through the
    other variables only. *)
Lemma program_reads (env env' : Env) :
  authTypeOf env = authTypeOf env' ->
  (forall k, In k otherVariables -> env !! k = env' !! k) ->
  createSqlConfig env = createSqlConfig env' /\
  ensureSqlConnection env = ensureSqlConnection env'.
Proof.
  intros Hauth Hlook.
  assert (Hbase : baseConfigOf env = baseConfigOf env').
  { unfold baseConfigOf.
    now rewrite !Hlook by (simpl; repeat (first [left; reflexivity | right])). }
  assert (Hcfg : createSqlConfig env = createSqlConfig env').
  { unfold createSqlConfig, azureConfig, windowsConfigOf.
    rewrite Hauth, Hbase.
    now rewrite !Hlook by (simpl; repeat (first [left; reflexivity | right])). }
  split; [exact Hcfg|].
  unfold ensureSqlConnection, connectWithoutToken, connectWithToken.
  now rewrite Hauth, Hcfg.
Qed.

(** X10: AUTH_TYPE is read without regard to letter case: with any
    value, credential resolution, the connection manager and the call
    handler are the same programs as with that value in lower case. *)
Theorem auth_type_ignores_case (env : Env) (value : string) toolName name args :
  createSqlConfig (<["AUTH_TYPE" := value]> env)
  = createSqlConfig (<["AUTH_TYPE" := toLowerCase value]> env) /\
  ensureSqlConnection (<["AUTH_TYPE" := value]> env)
  = ensureSqlConnection (<["AUTH_TYPE" := toLowerCase value]> env) /\
  callTool toolName (<["AUTH_TYPE" := value]> env) name args
  = callTool toolName (<["AUTH_TYPE" := toLowerCase value]> env) name args.
Proof.
  destruct (program_reads (<["AUTH_TYPE" := value]> env)
              (<["AUTH_TYPE" := toLowerCase value]> env)) as [Hcfg Hens].
  - unfold authTypeOf. rewrite !lookup_insert_eq. simpl.
    now rewrite toLowerCase_idempotent.
  - intros k Hk. rewrite !lookup_insert_ne; [reflexivity| |].
    all: intros <-; simpl in Hk; repeat (destruct Hk as [Hk|Hk]; [discriminate Hk|]);
      exact Hk.
  - split; [exact Hcfg|]. split; [exact Hens|].
    unfold callTool, dispatch, run. now rewrite Hens.
Qed.

(** ** Tokens that are not reused *)

(** X11: in the azure mode a token that is empty, or missing from the
    provider's answer, is kept as null; and as long as the token kept is
    null no connection is reused: a call made then runs the whole
    establishment again, whatever the state of the pool and the time.
    So the call that follows one which got such an answer requests a
    token and connects again. *)
Theorem null_token_is_not_reused {W : Type} (rt : Runtime W)
    env g w answer w1 :
  authTypeOf env = "azure" ->
  usable rt env g w = false ->
  credential_getToken rt tokenScope w = (resolved answer, w1) ->
  or_null (Azure.token <$> answer) = None ->
  globalAccessToken (globals (exec rt (ensureSqlConnection env) g w)) = None /\
  (forall g' w',
     globalAccessToken g' = None ->
     exec rt (ensureSqlConnection env) g' w' = exec rt (connectWithToken env) g' w').
Proof.
  intros Hazure Hu Htok Hnull. split.
  - rewrite exec_ensureSqlConnection, Hu. unfold establish. rewrite Hazure. simpl.
    destruct (token_recorded rt env g w answer w1 Hazure Htok) as [-> _].
    exact Hnull.
  - intros g' w' Hheld. rewrite (exec_ensureSqlConnection rt env g' w').
    unfold usable, establish, leaseFresh. rewrite Hazure, Hheld. simpl.
    now rewrite andb_false_r.
Qed.

(** After a connection made with an empty token, the next call, which
    finds the pool connected, requests a token and connects again. *)
Lemma null_token_is_not_reused_witness :
  steps (calls (exec Sim.runtime (ensureSqlConnection ∅)
     (globals (exec Sim.runtime (ensureSqlConnection ∅) initialGlobals emptyTokenWorld))
     (world (exec Sim.runtime (ensureSqlConnection ∅) initialGlobals emptyTokenWorld))))
  = [acquireToken; closeOld; openNew].
Proof.
  destruct (null_token_is_not_reused Sim.runtime ∅ initialGlobals emptyTokenWorld
              (Some {| Azure.token := ""; Azure.expiresOnTimestamp := 3601000 |})
              emptyTokenWorld)
    as [Hnull Hnext]; [reflexivity..|].
  rewrite (Hnext _ _ Hnull). reflexivity.
Defined.
(** ** A close that fails *)

(** X12: in the azure mode, when the close of the old pool throws,
    ensureSqlConnection fails with what the close threw, no connect
    attempted, but the new token and its expiry are already in the
    globals while [globalSqlPool] is still the old pool.  If that pool
    still reports itself connected and the new lease is fresh, the next
    call returns at once: the old connection is used on, under the new
    token's expiry. *)
Theorem failed_close_keeps_old_pool {W : Type} (rt : Runtime W)
    env g w p answer w1 e w2 :
  authTypeOf env = "azure" ->
  globalSqlPool g = Some p ->
  usable rt env g w = false ->
  credential_getToken rt tokenScope w = (resolved answer, w1) ->
  pool_connected rt w1 p = true ->
  pool_close rt p w1 = (rejected e, w2) ->
  exec rt (ensureSqlConnection env) g w
  = {| outcome := rejected e;
       globals := {| globalSqlPool := Some p;
                     globalAccessToken := or_null (Azure.token <$> answer);
                     globalTokenExpiresOn := Some (expiryOf answer (date_now rt w1)) |};
       world := w2;
       calls := [getToken_call tokenScope (resolved answer);
                 close_call p (rejected e)] |} /\
  (pool_connected rt w2 p = true ->
   leaseFresh rt (globals (exec rt (ensureSqlConnection env) g w)) w2 = true ->
   exec rt (ensureSqlConnection env)
        (globals (exec rt (ensureSqlConnection env) g w)) w2
   = untouched tt (globals (exec rt (ensureSqlConnection env) g w)) w2).
Proof.
  intros Hazure Hpool Hu Htok Hconn Hclose.
  assert (Hrun : exec rt (ensureSqlConnection env) g w
    = {| outcome := rejected e;
         globals := {| globalSqlPool := Some p;
                       globalAccessToken := or_null (Azure.token <$> answer);
                       globalTokenExpiresOn := Some (expiryOf answer (date_now rt w1)) |};
         world := w2;
         calls := [getToken_call tokenScope (resolved answer);
                   close_call p (rejected e)] |}).
  { rewrite exec_ensureSqlConnection, Hu. unfold_establish. unfold expiryOf.
    rewrite Hazure. simpl. rewrite Htok.
    destruct answer as [a|]; simpl;
      [destruct (Azure.expiresOnTimestamp a =? 0); simpl|];
      rewrite Hpool; simpl; rewrite Hconn; simpl; rewrite Hclose; reflexivity. }
  split; [exact Hrun|].
  intros Hstill Hfresh. rewrite exec_ensureSqlConnection.
  unfold usable, poolAlive. rewrite Hazure. simpl.
  rewrite Hfresh. rewrite Hrun. simpl. now rewrite Hstill.
Qed.

(** Pool 0 with a stale lease cannot be closed: the call fails, and the
    next one returns at once. *)
Lemma failed_close_keeps_old_pool_witness :
  exec Sim.runtime (ensureSqlConnection ∅)
       (globals (exec Sim.runtime (ensureSqlConnection ∅)
                      (holding 0%nat "old" 91000) stuckPoolWorld))
       stuckPoolWorld
  = untouched tt
      (globals (exec Sim.runtime (ensureSqlConnection ∅)
                     (holding 0%nat "old" 91000) stuckPoolWorld))
      stuckPoolWorld.
Proof.
  apply (failed_close_keeps_old_pool Sim.runtime ∅ (holding 0%nat "old" 91000)
           stuckPoolWorld 0%nat
           (Some {| Azure.token := "tok"; Azure.expiresOnTimestamp := 3601000 |})
           stuckPoolWorld
           (ErrorObject "ConnectionError" "Cannot close a pool while it is connecting")
           stuckPoolWorld);
    reflexivity.
Defined.

(** ** Names and tools *)

(** The names used in the runs are distinct. *)
Lemma Sim_names_distinct : distinctNames Sim.toolName.
Proof. intros [] []; simpl; intros H; reflexivity || discriminate H. Qed.

(** X13: when the tools have distinct names, a name stands for a tool in
    the [switch] of the call handler exactly when it is the name of
    that tool: no case hides another, so that each tool of the list
    handler is reached under its own name, and under no other. *)
Theorem each_name_reaches_its_tool (toolName : Tool -> string) t name :
  distinctNames toolName ->
  resolve toolName name = Some t <-> name = toolName t.
Proof.
  intros Hdistinct. split.
  - intros Hres. unfold resolve in Hres.
    apply List.find_some in Hres as [_ Heq]. now apply String.eqb_eq in Heq.
  - intros ->. unfold resolve, switchOrder.
    destruct t; simpl;
      repeat match goal with
             | |- context [String.eqb (toolName ?a) (toolName ?b)] =>
                 destruct (String.eqb_spec (toolName a) (toolName b)) as [Heq|Hne];
                 [first [reflexivity | apply Hdistinct in Heq; discriminate Heq]
                 |try (now destruct Hne); clear Hne]
             end.
Qed.

(** "drop_table" is the name of the drop tool, and of no other. *)
Lemma each_name_reaches_its_tool_witness :
  resolve Sim.toolName "drop_table" = Some dropTableTool.
Proof.
  apply (each_name_reaches_its_tool Sim.toolName dropTableTool "drop_table"
           Sim_names_distinct).
  reflexivity.
Defined.

(** ** What the program reads of the environment *)

(** X14: the environment matters to credential resolution, to the
    connection manager and to the call handler through AUTH_TYPE and
    nine other variables only.  Setting any other variable, READONLY
    among them, to any value leaves the three programs as they are. *)
Theorem other_variables_are_not_read (env : Env) (k value : string) toolName name args :
  ~ In k ("AUTH_TYPE" :: otherVariables) ->
  createSqlConfig (<[k := value]> env) = createSqlConfig env /\
  ensureSqlConnection (<[k := value]> env) = ensureSqlConnection env /\
  callTool toolName (<[k := value]> env) name args = callTool toolName env name args.
Proof.
  intros Hk.
  destruct (program_reads (<[k := value]> env) env) as [Hcfg Hens].
  - unfold authTypeOf. rewrite lookup_insert_ne; [reflexivity|].
    intros ->. apply Hk. now left.
  - intros k' Hk'. rewrite lookup_insert_ne; [reflexivity|].
    intros ->. apply Hk. now right.
  - split; [exact Hcfg|]. split; [exact Hens|].
    unfold callTool, dispatch, run. now rewrite Hens.
Qed.

(** READONLY is such a variable. *)
Lemma other_variables_are_not_read_witness :
  ensureSqlConnection (<["READONLY" := "true"]> ∅) = ensureSqlConnection ∅.
Proof.
  apply (other_variables_are_not_read ∅ "READONLY" "true" Sim.toolName "" None).
  simpl. intros H.
  repeat (destruct H as [H|H]; [discriminate H|]). exact H.
Defined.

(** ** Encryption outside the windows mode *)

(** X15: in every mode but windows and ntlm, a configuration that is
    resolved has encryption on, and trusts the server certificate
    exactly when TRUST_SERVER_CERTIFICATE is "true" in any letter case;
    resolving it leaves the globals alone. *)
Theorem encryption_outside_windows {W : Type} (rt : Runtime W) env g w r :
  ~ integrated env ->
  outcome (exec rt (createSqlConfig env) g w) = resolved r ->
  encrypt (options (config r)) = true /\
  trustServerCertificate (options (config r))
  = match env !! "TRUST_SERVER_CERTIFICATE" with
    | Some s => String.eqb (toLowerCase s) "true"
    | None => false
    end /\
  globals (exec rt (createSqlConfig env) g w) = g.
Proof.
  intros Hmode. unfold createSqlConfig.
  destruct (String.eqb_spec (authTypeOf env) "windows") as [Hw|_];
    [destruct Hmode; now left|].
  destruct (String.eqb_spec (authTypeOf env) "ntlm") as [Hn|_];
    [destruct Hmode; now right|].
  simpl. unfold azureConfig, call, trigger. run_through.
  all: intros Hout; try discriminate Hout.
  all: injection Hout as <-; repeat split.
Qed.

(** The sql mode with its credentials, and the certificate trusted. *)
Lemma encryption_outside_windows_witness :
  exists r,
    createSqlConfig (<["TRUST_SERVER_CERTIFICATE" := "True"]>
                       (<["SQL_USERNAME" := "sa"]>
                          (<["SQL_PASSWORD" := "secret"]>
                             (<["AUTH_TYPE" := "sql"]> ∅)))) = Ret r /\
    encrypt (options (config r)) = true /\
    trustServerCertificate (options (config r)) = true.
Proof.
  eexists. split; [reflexivity|].
  destruct (encryption_outside_windows Sim.runtime
              (<["TRUST_SERVER_CERTIFICATE" := "True"]>
                 (<["SQL_USERNAME" := "sa"]>
                    (<["SQL_PASSWORD" := "secret"]>
                       (<["AUTH_TYPE" := "sql"]> ∅))))
              initialGlobals (Sim.fresh 1000) _
              ltac:(intros [H|H]; discriminate H) eq_refl) as (He & Ht & _).
  split; [exact He|]. rewrite Ht. reflexivity.
Defined.

(** ** The fast path *)

(** X16: on a usable connection ensureSqlConnection returns before its
    first [await]: a call made then is never suspended.  Any number of
    calls made together on a usable connection have all returned as
    soon as they are made, no call having left the process and the
    globals being what they were. *)
Theorem usable_connection_never_suspends {W : Type} (rt : Runtime W)
    env g w (n : nat) :
  usable rt env g w = true ->
  spawnMany rt n (ensureSqlConnection env) (idle g w)
  = {| tasks := replicate n (Ret tt); shared := g; outside := w; made := [] |}.
Proof.
  intros Hu.
  assert (Hadv : advance rt (ensureSqlConnection env) g w = (Ret tt, g, w, [])).
  { unfold usable, ensureSqlConnection in *.
    unfold tokenStillValid, poolConnected, poolAlive, leaseFresh, trigger in *.
    destruct (negb (String.eqb (authTypeOf env) "azure")); simpl.
    - destruct (globalSqlPool g) as [p|]; [|discriminate Hu].
      simpl. now rewrite Hu.
    - destruct (globalSqlPool g) as [p|]; [|discriminate Hu]. simpl.
      destruct (pool_connected rt w p); [|discriminate Hu]. simpl in *.
      destruct (truthy (globalAccessToken g)); [|discriminate Hu]. simpl in *.
      destruct (globalTokenExpiresOn g); [|discriminate Hu]. simpl.
      now rewrite Hu. }
  assert (Hgen : forall s : System W unit,
    shared s = g -> outside s = w ->
    spawnMany rt n (ensureSqlConnection env) s
    = {| tasks := (tasks s ++ replicate n (Ret tt))%list;
         shared := g; outside := w; made := made s |}).
  { induction n as [|n IH]; intros s Hg Hw; simpl.
    - rewrite app_nil_r. destruct s; simpl in *; now subst.
    - unfold spawn at 1. rewrite Hg, Hw, Hadv.
      rewrite IH by reflexivity. simpl.
      now rewrite app_nil_r, <- app_assoc. }
  now rewrite Hgen.
Qed.

(** Three calls on pool 0 with a fresh lease. *)
Lemma usable_connection_never_suspends_witness :
  made (spawnMany Sim.runtime 3 (ensureSqlConnection ∅)
          (idle (holding 0%nat "tok" 3601000) connectedWorld)) = [].
Proof.
  rewrite (usable_connection_never_suspends Sim.runtime ∅
             (holding 0%nat "tok" 3601000) connectedWorld 3);
    reflexivity.
Defined.
